(** * Shallow embedding of rocksdb's write-thread coordination
      ([db/write_thread.cc]) and of the NVM environment's file operations
      ([nvm/env_nvm.cc]). *)

From Stdlib Require Import ZArith Lia.
From stdpp Require Import base list gmap strings.

Open Scope nat_scope.

(** ** Status *)

Inductive Status :=
| OK
| NotFound
| TimedOut
| IOError (msg : string).

(** ** WriteThread *)

Module WriteThread.

(** A [WriteBatch] as seen by the write thread: its byte size
    ([WriteBatchInternal::ByteSize]) and its record count ([Count()]). *)
Record WriteBatch := mkBatch {
  wb_byte_size : N;
  wb_count : nat
}.

(** Writers are client-owned objects, referred to by pointer. *)
Definition ptr := nat.

Record Writer := mkWriter {
  batch : option WriteBatch;          (* nullptr = None *)
  sync : bool;
  disableWAL : bool;
  has_callback : bool;
  timeout_hint_us : N;
  in_batch_group : bool;
  done : bool;
  parallel_execute_id : Z;
  status : Status
}.

(** The write thread state: the two deques of writer pointers, the atomic
    [uint32_t] counter, the heap of writer objects, and the log of
    [cv.Signal()] calls (the pointer of the writer whose [cv] was signaled). *)
Record State := mkState {
  writers_ : list ptr;
  parallel_writers_ : list ptr;
  unfinished_threads_ : Z;
  heap : ptr -> Writer;
  signals : list ptr
}.

Definition set_heap (st : State) (h : ptr -> Writer) : State :=
  mkState (writers_ st) (parallel_writers_ st) (unfinished_threads_ st) h (signals st).
Definition set_writers (st : State) (q : list ptr) : State :=
  mkState q (parallel_writers_ st) (unfinished_threads_ st) (heap st) (signals st).

Definition upd (h : ptr -> Writer) (p : ptr) (w : Writer) : ptr -> Writer :=
  fun q => if Nat.eqb q p then w else h q.

Definition set_in_batch_group (w : Writer) : Writer :=
  mkWriter (batch w) (sync w) (disableWAL w) (has_callback w) (timeout_hint_us w)
    true (done w) (parallel_execute_id w) (status w).
Definition set_done_status (w : Writer) (s : Status) : Writer :=
  mkWriter (batch w) (sync w) (disableWAL w) (has_callback w) (timeout_hint_us w)
    (in_batch_group w) true (parallel_execute_id w) s.
Definition set_parallel_execute_id (w : Writer) (id : Z) : Writer :=
  mkWriter (batch w) (sync w) (disableWAL w) (has_callback w) (timeout_hint_us w)
    (in_batch_group w) (done w) id (status w).

(** [x->cv.Signal()] *)
Definition signal (st : State) (p : ptr) : State :=
  mkState (writers_ st) (parallel_writers_ st) (unfinished_threads_ st) (heap st)
    (signals st ++ [p]).

(** [if (!writers_.empty()) writers_.front()->cv.Signal();] *)
Definition signal_front (st : State) : State :=
  match writers_ st with
  | [] => st
  | h :: _ => signal st h
  end.

Definition is_front (q : list ptr) (p : ptr) : bool :=
  match q with
  | h :: _ => Nat.eqb h p
  | [] => false
  end.

(** *** BuildBatchGroup *)

Definition KB : N := 1024.
Definition MB : N := 1024 * 1024.

(** [max_size = 1 << 20; if (size <= (128<<10)) max_size = size + (128<<10);] *)
Definition batch_group_max_size (size : N) : N :=
  if (size <=? 128 * KB)%N then (size + 128 * KB)%N else MB.

(** The loop over [writers_] past [first]: the heap (with [in_batch_group]
    flags), the running [size], [*last_writer] and [write_batch_group]. *)
Fixpoint build_loop (first : Writer) (max_size : N) (rest : list ptr)
    (h : ptr -> Writer) (size : N) (last : ptr) (group : list WriteBatch)
    : (ptr -> Writer) * N * ptr * list WriteBatch :=
  match rest with
  | [] => (h, size, last, group)
  | p :: rest' =>
      let w := h p in
      if sync w && negb (sync first) then (h, size, last, group)
      else if negb (disableWAL w) && disableWAL first then (h, size, last, group)
      else if (timeout_hint_us w <? timeout_hint_us first)%N then (h, size, last, group)
      else if has_callback w then (h, size, last, group)
      else match batch w with
           | None => (h, size, last, group)
           | Some b =>
               let size' := (size + wb_byte_size b)%N in
               if (max_size <? size')%N then (h, size', last, group)
               else build_loop first max_size rest'
                      (upd h p (set_in_batch_group w)) size' p (group ++ [b])
           end
  end.

(** [BuildBatchGroup]: [None] when one of its [REQUIRES] assertions fails;
    otherwise the new state, the returned size, [*last_writer] and the
    batch group. *)
Definition BuildBatchGroup (st : State)
    : option (State * N * ptr * list WriteBatch) :=
  match writers_ st with
  | [] => None
  | fp :: rest =>
      let first := heap st fp in
      match batch first with
      | None => None
      | Some fb =>
          let size := wb_byte_size fb in
          let max_size := batch_group_max_size size in
          if has_callback first then Some (st, size, fp, [fb])
          else
            let '(h, size', last, group) :=
              build_loop first max_size rest (heap st) size fp [fb] in
            Some (set_heap st h, size', last, group)
      end
  end.

(** The scan's five [break] tests on a writer [w], negated: [w] passes
    all of them. *)
Definition mergeable (first w : Writer) : bool :=
  negb (sync w && negb (sync first))
  && negb (negb (disableWAL w) && disableWAL first)
  && negb (timeout_hint_us w <? timeout_hint_us first)%N
  && negb (has_callback w)
  && match batch w with Some _ => true | None => false end.

(** Total byte size of a batch group. *)
Definition group_bytes (g : list WriteBatch) : N :=
  fold_right (fun b acc => (wb_byte_size b + acc)%N) 0%N g.

(** Sample writers and queues, used to run the model. *)
Definition sample_writer (bytes : N) (count : nat) (sync_ disable_wal cb : bool)
    (timeout : N) : Writer :=
  mkWriter (Some (mkBatch bytes count)) sync_ disable_wal cb timeout false false 0 OK.

Definition sample_heap (ws : list (ptr * Writer)) : ptr -> Writer :=
  fun p => match List.find (fun e => Nat.eqb (fst e) p) ws with
           | Some (_, w) => w
           | None => mkWriter None false false false 0%N false false 0 OK
           end.

Definition sample_state (q : list ptr) (ws : list (ptr * Writer)) : State :=
  mkState q [] 0 (sample_heap ws) [].

(** Scenario S2 of the spec: A (50 KiB), B (10 KiB), C (5 KiB, sync),
    D (2 KiB). *)
Definition s2_state : State :=
  sample_state [1; 2; 3; 4]
    [(1, sample_writer (50 * KB) 1 false false false 0);
     (2, sample_writer (10 * KB) 1 false false false 0);
     (3, sample_writer (5 * KB) 1 true false false 0);
     (4, sample_writer (2 * KB) 1 false false false 0)].

(** A 200 KiB initiator followed by a 300 KiB writer. *)
Definition big_pair_state : State :=
  sample_state [1; 2]
    [(1, sample_writer (200 * KB) 1 false false false 0);
     (2, sample_writer (300 * KB) 1 false false false 0)].

(** A 100 KiB initiator followed by a 200 KiB writer, which does not fit
    under [max_size = 228 KiB]. *)
Definition overflow_pair_state : State :=
  sample_state [1; 2]
    [(1, sample_writer (100 * KB) 1 false false false 0);
     (2, sample_writer (200 * KB) 1 false false false 0)].

(** *** EnterWriteThread *)

(** One wake-up of the waiting writer: during the wait the other threads
    act on the shared state ([ev_others]); for a [TimedWait] the event also
    says whether the deadline passed ([ev_timed_out], the return value of
    [cv.TimedWait]). For an untimed [cv.Wait()] the flag is ignored. *)
Record WaitEvent := mkWaitEvent {
  ev_timed_out : bool;
  ev_others : State -> State
}.

(** What the loop body did on one iteration. *)
Inductive LoopStep :=
| StepWait                 (* [w->cv.Wait()] *)
| StepTimedWaitNoExpire    (* [TimedWait] returned false *)
| StepExpiredInGroup       (* expired, [in_batch_group]: [expiration_time = 0] *)
| StepExpiredNotInGroup.   (* expired, not in group: [timed_out = true; break] *)

(** [!w->done && w->parallel_execute_id <= 0 && w != writers_.front()] *)
Definition wait_cond (st : State) (w : ptr) : bool :=
  negb (done (heap st w)) && (parallel_execute_id (heap st w) <=? 0)%Z
  && negb (is_front (writers_ st) w).

(** The wait loop, driven by the wake-ups [tr]. [None]: the writer is still
    blocked when [tr] runs out. Otherwise the final state, [timed_out], the
    final [expiration_time] and the iterations performed. *)
Fixpoint enter_loop (w : ptr) (expiration_time : nat) (tr : list WaitEvent)
    (st : State) : option (State * bool * nat * list LoopStep) :=
  if negb (wait_cond st w) then Some (st, false, expiration_time, [])
  else match tr with
  | [] => None
  | ev :: tr' =>
      let st1 := ev_others ev st in
      if Nat.eqb expiration_time 0 then
        match enter_loop w expiration_time tr' st1 with
        | Some (st2, t, e, l) => Some (st2, t, e, StepWait :: l)
        | None => None
        end
      else if ev_timed_out ev then
        if in_batch_group (heap st1 w) then
          match enter_loop w 0 tr' st1 with
          | Some (st2, t, e, l) => Some (st2, t, e, StepExpiredInGroup :: l)
          | None => None
          end
        else Some (st1, true, expiration_time, [StepExpiredNotInGroup])
      else
        match enter_loop w expiration_time tr' st1 with
        | Some (st2, t, e, l) => Some (st2, t, e, StepTimedWaitNoExpire :: l)
        | None => None
        end
  end.

(** [writers_.erase(iter)] at the first [iter] with [*iter == w]. *)
Fixpoint erase_first (w : ptr) (q : list ptr) : list ptr :=
  match q with
  | [] => []
  | p :: q' => if Nat.eqb p w then q' else p :: erase_first w q'
  end.

(** [EnterWriteThread(w, expiration_time)]; [None] when the writer is still
    blocked or the [assert(found)] fails. *)
Definition EnterWriteThread (w : ptr) (expiration_time : nat)
    (tr : list WaitEvent) (st : State) : option (Status * State * list LoopStep) :=
  let st0 := set_writers st (writers_ st ++ [w]) in
  match enter_loop w expiration_time tr st0 with
  | None => None
  | Some (st1, timed_out, _, log) =>
      if negb (done (heap st1 w)) && (0 <? parallel_execute_id (heap st1 w))%Z
      then Some (OK, st1, log)
      else if timed_out then
        if existsb (Nat.eqb w) (writers_ st1) then
          let st2 := set_writers st1 (erase_first w (writers_ st1)) in
          Some (TimedOut, signal_front st2, log)
        else None
      else Some (OK, st1, log)
  end.

(** Scenario S4 of the spec: A (pointer 1) leads; B (pointer 2) waits
    with a deadline. B's timed wait expires after A has merged it, then A
    completes B's write. *)
Definition s4_start : State :=
  sample_state [1]
    [(1, sample_writer 100 1 false false false 0);
     (2, sample_writer 100 1 false false false 10)].

Definition s4_trace : list WaitEvent :=
  [mkWaitEvent true (fun st => set_heap st
                        (upd (heap st) 2 (set_in_batch_group (heap st 2))));
   mkWaitEvent false (fun st => set_heap st
                        (upd (heap st) 2 (set_done_status (heap st 2) OK)))].

(** Scenario S5 of the spec: A (pointer 1) leads and stalls; B (pointer 2,
    with a deadline) enters, C (pointer 3) enters behind it, and B's timed
    wait expires. *)
Definition s5_start : State :=
  sample_state [1]
    [(1, sample_writer 100 1 false false false 0);
     (2, sample_writer 100 1 false false false 1);
     (3, sample_writer 100 1 false false false 0)].

Definition s5_trace : list WaitEvent :=
  [mkWaitEvent true (fun st => set_writers st (writers_ st ++ [3]))].

(** *** StartParallelRun and ReportParallelRunFinish *)

Definition two32 : Z := 2 ^ 32.

(** The [while (!writers_.empty())] loop: queue, [parallel_writers_], heap,
    signal log. [None] when a writer's [batch] is null ([batch->Count()]). *)
Fixpoint start_loop (w last_writer : ptr) (parallel_id : Z) (q : list ptr)
    (pw : list ptr) (h : ptr -> Writer) (sg : list ptr)
    : option (list ptr * list ptr * (ptr -> Writer) * list ptr) :=
  match q with
  | [] => Some ([], pw, h, sg)
  | p :: q' =>
      let pw' := pw ++ [p] in
      let h' := upd h p (set_parallel_execute_id (h p) parallel_id) in
      match batch (h' p) with
      | None => None
      | Some b =>
          let parallel_id' := (parallel_id + Z.of_nat (wb_count b))%Z in
          let sg' := if Nat.eqb p w then sg else sg ++ [p] in
          if negb (Nat.eqb p last_writer)
          then start_loop w last_writer parallel_id' q' pw' h' sg'
          else Some (q, pw', h', sg')
      end
  end.

(** The body of [StartParallelRun] without its assertions. *)
Definition start_parallel_run_body (w : ptr) (num_threads : nat)
    (last_writer : ptr) (st : State) : option State :=
  match start_loop w last_writer 1 (writers_ st) (parallel_writers_ st)
          (heap st) (signals st) with
  | None => None
  | Some (q, pw, h, sg) =>
      Some (mkState q pw (Z.of_nat num_threads mod two32) h sg)
  end.

(** [StartParallelRun] with [assert(unfinished_threads_.load() == 0)] and
    [assert(num_threads == parallel_writers_.size())]; [None] = abort. *)
Definition StartParallelRun (w : ptr) (num_threads : nat) (last_writer : ptr)
    (st : State) : option State :=
  if negb (unfinished_threads_ st =? 0)%Z then None
  else match start_parallel_run_body w num_threads last_writer st with
       | None => None
       | Some st' =>
           if Nat.eqb num_threads (length (parallel_writers_ st'))
           then Some st' else None
       end.

(** [return unfinished_threads_.fetch_add(-1) == 1;] on a [uint32_t]. *)
Definition ReportParallelRunFinish (st : State) : bool * State :=
  let old := unfinished_threads_ st in
  ((old =? 1)%Z,
   mkState (writers_ st) (parallel_writers_ st) ((old - 1) mod two32)
     (heap st) (signals st)).

(** [n] successive calls of [ReportParallelRunFinish], their results in
    order. *)
Fixpoint report_n (n : nat) (st : State) : list bool * State :=
  match n with
  | 0 => ([], st)
  | S n' =>
      let '(b, st1) := ReportParallelRunFinish st in
      let '(bs, st2) := report_n n' st1 in
      (b :: bs, st2)
  end.

(** [batch->Count()] of a writer (0 for a null batch), and the sum of
    these over a list of writers. *)
Definition writer_count (w : Writer) : nat :=
  match batch w with Some b => wb_count b | None => 0 end.

Definition counts_before (h : ptr -> Writer) (ps : list ptr) : Z :=
  fold_right (fun p acc => (Z.of_nat (writer_count (h p)) + acc)%Z) 0%Z ps.

(** Scenario S6 of the spec: A, B, C (pointers 1, 2, 3) merged into one
    group with batches of 2, 3 and 1 records, and D (pointer 4) queued
    behind them. *)
Definition s6_state : State :=
  sample_state [1; 2; 3; 4]
    [(1, sample_writer 100 2 false false false 0);
     (2, sample_writer 100 3 false false false 0);
     (3, sample_writer 100 1 false false false 0);
     (4, sample_writer 100 1 false false false 0)].

(** *** ExitWriteThread *)

Fixpoint exit_loop (w last_writer : ptr) (s : Status) (q : list ptr)
    (h : ptr -> Writer) (sg : list ptr) : list ptr * (ptr -> Writer) * list ptr :=
  match q with
  | [] => ([], h, sg)
  | ready :: q' =>
      let '(h', sg') :=
        if negb (Nat.eqb ready w)
        then (upd h ready (set_done_status (h ready) s), sg ++ [ready])
        else (h, sg) in
      if Nat.eqb ready last_writer then (q', h', sg')
      else exit_loop w last_writer s q' h' sg'
  end.

Definition ExitWriteThread (w last_writer : ptr) (s : Status) (st : State)
    : State :=
  let '(q, h, sg) := exit_loop w last_writer s (writers_ st) (heap st) (signals st) in
  signal_front (mkState q (parallel_writers_ st) (unfinished_threads_ st) h sg).

(** *** LeaderWaitEndParallel, LeaderEndParallel, EndParallelRun *)

(** [parallel_writer->done = true] (the status is left as it is). *)
Definition set_done (w : Writer) : Writer :=
  mkWriter (batch w) (sync w) (disableWAL w) (has_callback w) (timeout_hint_us w)
    (in_batch_group w) true (parallel_execute_id w) (status w).

Definition set_unfinished (st : State) (n : Z) : State :=
  mkState (writers_ st) (parallel_writers_ st) n (heap st) (signals st).

(** [while (unfinished_threads_.load() != 0) self->cv.Wait();]: each
    wake-up is an action of the other threads on the shared state; [None]
    when the leader is still waiting when [tr] runs out. *)
Fixpoint LeaderWaitEndParallel (tr : list (State -> State)) (st : State)
    : option State :=
  if negb (unfinished_threads_ st =? 0)%Z then
    match tr with
    | [] => None
    | ev :: tr' => LeaderWaitEndParallel tr' (ev st)
    end
  else Some st.

(** [Writer::cfd_set] of every writer, kept beside the heap: the column
    families (by identifier) the writer inserted into. *)
Definition CfdSets := ptr -> gset nat.

Definition upd_cfds (c : CfdSets) (p : ptr) (s : gset nat) : CfdSets :=
  fun q => if Nat.eqb q p then s else c q.

(** The [for (Writer* parallel_writer : parallel_writers_)] loop: heap,
    column-family sets, and the log of [self_cv.Signal()] calls. *)
Fixpoint end_loop (self : ptr) (pws : list ptr) (h : ptr -> Writer) (c : CfdSets)
    (ss : list ptr) : (ptr -> Writer) * CfdSets * list ptr :=
  match pws with
  | [] => (h, c, ss)
  | p :: pws' =>
      if negb (Nat.eqb p self)
      then end_loop self pws' (upd h p (set_done (h p)))
             (upd_cfds c self (c self ∪ c p)) (ss ++ [p])
      else end_loop self pws' h c ss
  end.

(** [parallel_writers_.back()]; [None] on an empty deque. *)
Definition back (l : list ptr) : option ptr :=
  List.last (map Some l) None.

(** [LeaderEndParallel(self, last_writer, flush_scheduler)], with
    [cfd->mem()->ShouldScheduleFlush()] given by [should_flush]. [None]
    when an assertion fails (or [back()] is taken on an empty deque);
    otherwise the state, the column-family sets, the [self_cv] signals,
    and the column families handed to [ScheduleFlush]. *)
Definition LeaderEndParallel (should_flush : nat -> bool) (self last_writer : ptr)
    (st : State) (c : CfdSets)
    : option (State * CfdSets * list ptr * gset nat) :=
  if negb (unfinished_threads_ st =? 0)%Z then None
  else
    let '(h, c', ss) := end_loop self (parallel_writers_ st) (heap st) c [] in
    match writers_ st, back (parallel_writers_ st) with
    | q0 :: q', Some b =>
        if Nat.eqb b q0 && Nat.eqb b last_writer then
          let flushes := filter (fun cfd => should_flush cfd = true) (c' self) in
          let st' := signal_front
                       (mkState q' [] (unfinished_threads_ st) h (signals st)) in
          Some (st', c', ss, flushes)
        else None
    | _, _ => None
    end.

(** [while (!w->done) w->self_cv.Wait();] *)
Fixpoint wait_done (w : ptr) (tr : list (State -> State)) (st : State)
    : option State :=
  if done (heap st w) then Some st
  else match tr with
       | [] => None
       | ev :: tr' => wait_done w tr' (ev st)
       end.

(** [EndParallelRun(w, need_wake_up_leader, db_mutex)]. *)
Definition EndParallelRun (w : ptr) (need_wake_up_leader : bool)
    (tr : list (State -> State)) (st : State) : option State :=
  let st1 := if need_wake_up_leader then
               match parallel_writers_ st with
               | [] => st
               | leader :: _ => signal st leader
               end
             else st in
  wait_done w tr st1.

End WriteThread.

(** ** EnvNVM *)

Module EnvNVM.

(** The default (posix) [Env] that [EnvNVM] delegates to through [posix_];
    its implementation is not part of the files embedded here, so it is an
    interface: a file-system state and the three calls [EnvNVM] makes. *)
Class PosixEnv := {
  PosixFS : Type;
  posix_FileExists : PosixFS -> string -> Status;
  posix_RenameFile : PosixFS -> string -> string -> Status * PosixFS;
  posix_GetChildren : PosixFS -> string -> Status * list string
}.

(** [FPathInfo] (declared in [env_nvm.h], not embedded here): the
    accessors [EnvNVM] uses on a parsed path. *)
Class FPathInfo := {
  nvm_managed : string -> bool;
  dpath : string -> string;
  fname : string -> string
}.

(** An [NvmFile] object: its identity (the pointer stored in [fs_]) and
    its current name, which [IsNamed] compares and [Rename] replaces. *)
Record NvmFile := mkNvmFile {
  nf_id : nat;
  nf_fname : string
}.

(** The [NvmFile(env, info, meta_path)] constructor, which may throw
    ([None]). *)
Class NvmFileFromMeta `{PosixEnv} := {
  nvm_file_from_meta : PosixFS -> string -> string -> option NvmFile
}.

(** The other calls of the default [Env] that [EnvNVM] delegates to. The
    handles these calls hand back through [result] are not tracked. *)
Class PosixEnvMore `{PosixEnv} := {
  posix_NewSequentialFile : PosixFS -> string -> Status;
  posix_NewRandomAccessFile : PosixFS -> string -> Status;
  posix_NewWritableFile : PosixFS -> string -> Status * PosixFS;
  posix_ReuseWritableFile : PosixFS -> string -> string -> Status * PosixFS;
  posix_GetFileSize : PosixFS -> string -> Status * N;
  posix_GetFileModificationTime : PosixFS -> string -> Status * N
}.

(** The rest of [NvmFile] that [EnvNVM] uses: the [NvmFile(env, info)]
    constructor, which may throw ([None]) and may touch the posix file
    system, and [GetFileSize()]. *)
Class NvmFileOps `{PosixEnv} := {
  nvm_file_new : PosixFS -> string -> option NvmFile * PosixFS;
  nvm_file_size : NvmFile -> N
}.

Section Env.
Context `{PE : PosixEnv} `{FP : FPathInfo} `{NM : @NvmFileFromMeta PE}.

Record EnvState := mkEnvState {
  posix : PosixFS;
  fs_ : gmap string (list NvmFile)
}.

Definition IsNamed (f : NvmFile) (name : string) : bool :=
  String.eqb (nf_fname f) name.

(** [FPathInfo::ends_with] *)
Definition ends_with (s suffix : string) : bool :=
  let n := String.length s in
  let m := String.length suffix in
  (m <=? n) && String.eqb (String.substring (n - m) m s) suffix.

(** The [.meta] scan of [FindFileUnguarded]: the first entry ending in
    [meta] whose first [fname().size()] characters equal [fname()]. *)
Fixpoint find_meta (fs : PosixFS) (fpath : string) (listing : list string)
    : option NvmFile :=
  match listing with
  | [] => None
  | entry :: rest =>
      if negb (ends_with entry "meta") then find_meta fs fpath rest
      else if negb (String.eqb
                      (String.substring 0 (String.length (fname fpath)) entry)
                      (fname fpath))
      then find_meta fs fpath rest
      else nvm_file_from_meta fs fpath
             (dpath fpath +:+ "/" +:+ entry)
  end.

Definition FindFileUnguarded (st : EnvState) (fpath : string) : option NvmFile :=
  match fs_ st !! dpath fpath with
  | None => None
  | Some files =>
      match List.find (fun f => IsNamed f (fname fpath)) files with
      | Some f => Some f
      | None =>
          let '(s, listing) := posix_GetChildren (posix st) (dpath fpath) in
          match s with
          | OK => find_meta (posix st) fpath listing
          | _ => None
          end
      end
  end.

(** [dit->second.erase(it)] at the first file named [name]. *)
Fixpoint erase_named (name : string) (files : list NvmFile)
    : option (list NvmFile) :=
  match files with
  | [] => None
  | f :: rest =>
      if IsNamed f name then Some rest
      else match erase_named name rest with
           | Some rest' => Some (f :: rest')
           | None => None
           end
  end.

Definition DeleteFileUnguarded (st : EnvState) (fpath : string)
    : Status * EnvState :=
  match fs_ st !! dpath fpath with
  | None => (NotFound, st)
  | Some files =>
      match erase_named (fname fpath) files with
      | Some files' =>
          (OK, mkEnvState (posix st) (<[dpath fpath := files']> (fs_ st)))
      | None => (NotFound, st)
      end
  end.

Definition DeleteFile (st : EnvState) (fpath : string) : Status * EnvState :=
  if negb (nvm_managed fpath) then (posix_FileExists (posix st) fpath, st)
  else DeleteFileUnguarded st fpath.

(** [file->Rename(name)]: the object is shared by every [fs_] entry that
    points to it. *)
Definition rename_obj (f : NvmFile) (name : string) (files : list NvmFile)
    : list NvmFile :=
  map (fun g => if Nat.eqb (nf_id g) (nf_id f) then mkNvmFile (nf_id g) name
                else g) files.

Definition RenameFile (st : EnvState) (fpath_src fpath_tgt : string)
    : Status * EnvState :=
  if xorb (nvm_managed fpath_src) (nvm_managed fpath_src) then
    (IOError "Renaming a non-NVM file to a NVM file or the other way around.", st)
  else if negb (nvm_managed fpath_src) then
    let '(s, p') := posix_RenameFile (posix st) fpath_src fpath_tgt in
    (s, mkEnvState p' (fs_ st))
  else if negb (String.eqb (dpath fpath_src) (dpath fpath_tgt)) then
    (IOError "Directory change not supported when renaming", st)
  else match FindFileUnguarded st fpath_src with
  | None => (NotFound, st)
  | Some file =>
      let st1 := match FindFileUnguarded st fpath_tgt with
                 | Some _ => snd (DeleteFileUnguarded st fpath_tgt)
                 | None => st
                 end in
      (OK, mkEnvState (posix st1)
             (fmap (rename_obj file (fname fpath_tgt)) (fs_ st1)))
  end.

(** *** The other calls of [EnvNVM] *)

Definition FileExists (st : EnvState) (fpath : string) : Status :=
  if negb (nvm_managed fpath) then posix_FileExists (posix st) fpath
  else match FindFileUnguarded st fpath with
       | Some _ => OK
       | None => NotFound
       end.

(** [GetChildren(dpath, result)]: the status of the posix call is
    dropped, and [fs_[dpath]] inserts an empty list for an unknown
    directory. [GetFname()] is the name [IsNamed] compares. *)
Definition GetChildren (st : EnvState) (d : string)
    : Status * list string * EnvState :=
  let listing := snd (posix_GetChildren (posix st) d) in
  let files := match fs_ st !! d with Some l => l | None => [] end in
  (OK, listing ++ map nf_fname files,
   mkEnvState (posix st) (<[d := files]> (fs_ st))).

Definition GetChildrenFileAttributes (d : string) : Status :=
  IOError "GetChildrenFileAttributes --> Not implemented".

Context `{PM : @PosixEnvMore PE} `{NO : @NvmFileOps PE}.

(** [NewSequentialFile]: the status, and for an NVM-managed path the file
    the new [NvmSequentialFile] reads. *)
Definition NewSequentialFile (st : EnvState) (fpath : string)
    : Status * option NvmFile :=
  if negb (nvm_managed fpath) then (posix_NewSequentialFile (posix st) fpath, None)
  else match FindFileUnguarded st fpath with
       | None => (NotFound, None)
       | Some file => (OK, Some file)
       end.

Definition NewRandomAccessFile (st : EnvState) (fpath : string)
    : Status * option NvmFile :=
  if negb (nvm_managed fpath) then (posix_NewRandomAccessFile (posix st) fpath, None)
  else match FindFileUnguarded st fpath with
       | None => (NotFound, None)
       | Some file => (OK, Some file)
       end.

Definition ReuseWritableFile (st : EnvState) (fpath fpath_old : string)
    : Status * EnvState :=
  if negb (nvm_managed fpath) then
    let '(s, p') := posix_ReuseWritableFile (posix st) fpath fpath_old in
    (s, mkEnvState p' (fs_ st))
  else (IOError "ReuseWritableFile --> Not implemented.", st).

(** [NewWritableFile]: the status, the state, and for an NVM-managed path
    the file the new [NvmWritableFile] writes. When the constructor
    throws, [file] keeps the value [FindFileUnguarded] gave it. *)
Definition NewWritableFile (st : EnvState) (fpath : string)
    : Status * EnvState * option NvmFile :=
  if negb (nvm_managed fpath) then
    let '(s, p') := posix_NewWritableFile (posix st) fpath in
    (s, mkEnvState p' (fs_ st), None)
  else
    let found := FindFileUnguarded st fpath in
    let st1 := match found with
               | Some _ => snd (DeleteFileUnguarded st fpath)
               | None => st
               end in
    let '(created, p') := nvm_file_new (posix st1) fpath in
    let file := match created with Some f => Some f | None => found end in
    match file with
    | None => (IOError "Failed creating NvmFile", mkEnvState p' (fs_ st1), None)
    | Some f =>
        let files := match fs_ st1 !! dpath fpath with Some l => l | None => [] end in
        (OK, mkEnvState p' (<[dpath fpath := files ++ [f]]> (fs_ st1)), Some f)
    end.

(** [GetFileSize]: the status and the value written to [*fsize]. *)
Definition GetFileSize (st : EnvState) (fpath : string) : Status * option N :=
  if negb (nvm_managed fpath) then
    let '(s, n) := posix_GetFileSize (posix st) fpath in (s, Some n)
  else match FindFileUnguarded st fpath with
       | None => (IOError "File not not found", None)
       | Some file => (OK, Some (nvm_file_size file))
       end.

Definition GetFileModificationTime (st : EnvState) (fpath : string)
    : Status * option N :=
  if negb (nvm_managed fpath) then
    let '(s, n) := posix_GetFileModificationTime (posix st) fpath in (s, Some n)
  else (IOError "GetFileModificationTime --> Not implemented", None).

End Env.

(** *** The constructor *)

(** [std::string::find(needle)] from position [i] on: the first position
    where [needle] occurs, [None] for [npos]. *)
Fixpoint string_find_from (needle hay : string) (i : nat) : option nat :=
  if String.prefix needle hay then Some i
  else match hay with
       | EmptyString => None
       | String _ hay' => string_find_from needle hay' (S i)
       end.

Definition string_find (needle hay : string) : option nat :=
  string_find_from needle hay 0.

(** [EnvNVM(uri)]: [None] when it throws [invalid uri] (the position of
    ["nvm://"] in [uri] is not 0); otherwise [dev_name_], that is
    [uri_.substr(uri_prefix.size())]. *)
Definition EnvNVM_dev_name (uri : string) : option string :=
  let uri_prefix := "nvm://"%string in
  match string_find uri_prefix uri with
  | Some 0 =>
      Some (String.substring (String.length uri_prefix)
              (String.length uri - String.length uri_prefix) uri)
  | _ => None
  end.

(** The state of a new [EnvNVM]: [fs_()] is empty. *)
Definition EnvNVM_init `{PosixEnv} (p : PosixFS) : EnvState := mkEnvState p ∅.

(** A sample platform used to run the model: a posix file system as the
    list of its paths, every path in directory [db] and named by itself,
    and [.sst] files managed by NVM. *)
#[local] Instance sample_posix : PosixEnv := {
  PosixFS := list string;
  posix_FileExists fs p :=
    if existsb (String.eqb p) fs then OK else NotFound;
  posix_RenameFile fs a b :=
    if existsb (String.eqb a) fs
    then (OK, b :: List.filter (fun q => negb (String.eqb q a)) fs)
    else (IOError "rename", fs);
  posix_GetChildren fs d := (OK, fs)
}.

#[local] Instance sample_fpath : FPathInfo := {
  nvm_managed p := ends_with p ".sst";
  dpath _ := "db";
  fname p := p
}.

#[local] Instance sample_meta : @NvmFileFromMeta sample_posix := {
  nvm_file_from_meta _ _ _ := None
}.

Definition sample_env : @EnvState sample_posix :=
  @mkEnvState sample_posix ["x.log"]
    {[ "db" := [mkNvmFile 1 "a.sst"; mkNvmFile 2 "c.sst"] ]}.

Definition sample_RenameFile := @RenameFile sample_posix sample_fpath sample_meta.
Definition sample_DeleteFile := @DeleteFile sample_posix sample_fpath.

(** Further sample parts, used to run the other calls: the remaining
    posix calls; an [NvmFile] constructor that succeeds (with the path's
    name) or always throws; a meta-file constructor that succeeds; and a
    new [EnvNVM] over a posix file system holding a meta file. *)
#[local] Instance sample_more : @PosixEnvMore sample_posix := {
  posix_NewSequentialFile fs p := posix_FileExists fs p;
  posix_NewRandomAccessFile fs p := posix_FileExists fs p;
  posix_NewWritableFile fs p := (OK, p :: fs);
  posix_ReuseWritableFile fs p q := (OK, p :: fs);
  posix_GetFileSize fs p := (posix_FileExists fs p, 0%N);
  posix_GetFileModificationTime fs p := (posix_FileExists fs p, 0%N)
}.

#[local] Instance sample_ops : @NvmFileOps sample_posix := {
  nvm_file_new fs p := (Some (mkNvmFile 7 p), fs);
  nvm_file_size _ := 0%N
}.

#[local] Instance sample_ops_fail : @NvmFileOps sample_posix := {
  nvm_file_new fs p := (None, fs);
  nvm_file_size _ := 0%N
}.

#[local] Instance sample_meta_found : @NvmFileFromMeta sample_posix := {
  nvm_file_from_meta _ p _ := Some (mkNvmFile 9 p)
}.

Definition sample_env0 : @EnvState sample_posix :=
  @EnvNVM_init sample_posix ["a.sst.meta"].

End EnvNVM.

(** * Properties *)

Module WriteThreadSpec.
Import WriteThread.

(** ** BuildBatchGroup *)

Lemma upd_ibg_batch (h : ptr -> Writer) (q p : ptr) :
  batch (upd h q (set_in_batch_group (h q)) p) = batch (h p).
Proof. unfold upd. destruct (Nat.eqb p q) eqn:E; [apply Nat.eqb_eq in E; subst|]; done. Qed.

Lemma upd_ibg_mergeable (first : Writer) (h : ptr -> Writer) (q p : ptr) :
  mergeable first (upd h q (set_in_batch_group (h q)) p) = mergeable first (h p).
Proof. unfold upd. destruct (Nat.eqb p q) eqn:E; [apply Nat.eqb_eq in E; subst|]; done. Qed.

Lemma last_cons_default (l : list ptr) (p d : ptr) :
  List.last (p :: l) d = List.last l p.
Proof.
  revert p d. induction l as [|x l IH]; intros p d; [done|].
  change (List.last (x :: l) d = List.last (x :: l) p).
  rewrite !IH. done.
Qed.

Lemma group_bytes_app (g1 g2 : list WriteBatch) :
  group_bytes (g1 ++ g2) = (group_bytes g1 + group_bytes g2)%N.
Proof. induction g1 as [|b g1 IH]; simpl; [done|]. rewrite IH. lia. Qed.

Lemma mergeable_spec (first w : Writer) :
  mergeable first w = true <->
  has_callback w = false /\ batch w <> None /\
  ~ (sync w = true /\ sync first = false) /\
  ~ (disableWAL w = false /\ disableWAL first = true) /\
  (timeout_hint_us first <= timeout_hint_us w)%N.
Proof.
  unfold mergeable.
  destruct (timeout_hint_us w <? timeout_hint_us first)%N eqn:E;
  [apply N.ltb_lt in E | apply N.ltb_ge in E];
  destruct (sync w), (sync first), (disableWAL w), (disableWAL first),
    (has_callback w), (batch w); simpl;
  split; intros Hx; try discriminate;
  try (destruct Hx as (? & ? & ? & ? & ?));
  repeat split; try done; try lia;
  try (intros [? ?]; discriminate); exfalso; intuition (try discriminate; try lia).
Qed.

(** A scan that stops at once: the empty prefix. *)
Ltac stop_intro H :=
  injection H as <- <- <- <-; exists 0, []; simpl; rewrite ?app_nil_r;
  split; [lia|]; split; [constructor|]; split; [constructor|];
  split; [done|]; split; [done|]; split; [left; done|].

(** The scan of [BuildBatchGroup] takes a prefix of [rest]: the writers in
    it all pass the break tests and fit the size limit; the first writer
    after it fails a test or the size limit. *)
Lemma build_loop_char (first : Writer) (ms : N) (rest : list ptr) :
  forall h (size : N) last group h' size' last' group',
  build_loop first ms rest h size last group = (h', size', last', group') ->
  exists k bs, k <= length rest /\
    Forall2 (fun p b => batch (h p) = Some b) (take k rest) bs /\
    Forall (fun p => mergeable first (h p) = true) (take k rest) /\
    group' = group ++ bs /\
    last' = List.last (take k rest) last /\
    (k = 0 \/ (size + group_bytes bs <= ms)%N) /\
    match rest !! k with
    | None => size' = (size + group_bytes bs)%N
    | Some p =>
        (mergeable first (h p) = false /\ size' = (size + group_bytes bs)%N) \/
        (exists b, mergeable first (h p) = true /\ batch (h p) = Some b /\
           size' = (size + group_bytes bs + wb_byte_size b)%N /\ (ms < size')%N)
    end.
Proof.
  induction rest as [|p rest IH]; intros h size last group h' size' last' group' H.
  - simpl in H. stop_intro H. lia.
  - simpl in H.
    destruct (sync (h p) && negb (sync first)) eqn:E1;
    [stop_intro H; left; split; [unfold mergeable; rewrite E1; done | lia]|].
    destruct (negb (disableWAL (h p)) && disableWAL first) eqn:E2;
    [stop_intro H; left; split; [unfold mergeable; rewrite E1, E2; done | lia]|].
    destruct (timeout_hint_us (h p) <? timeout_hint_us first)%N eqn:E3;
    [stop_intro H; left; split; [unfold mergeable; rewrite E1, E2, E3; done | lia]|].
    destruct (has_callback (h p)) eqn:E4;
    [stop_intro H; left; split; [unfold mergeable; rewrite E1, E2, E3, E4; done | lia]|].
    assert (Hm : forall b, batch (h p) = Some b -> mergeable first (h p) = true).
    { intros b Hb. unfold mergeable. rewrite E1, E2, E3, E4, Hb. done. }
    destruct (batch (h p)) as [b|] eqn:E5;
    [|stop_intro H; left; split;
      [unfold mergeable; rewrite E1, E2, E3, E4, E5; done | lia]].
    destruct (ms <? size + wb_byte_size b)%N eqn:E6.
    + apply N.ltb_lt in E6. stop_intro H. right. exists b.
      split; [eauto|]. split; [done|]. lia.
    + apply N.ltb_ge in E6.
      apply IH in H as (k & bs & Hk & Hb & Hmg & Hg & Hl & Hsz & Hnext).
      exists (S k), (b :: bs). simpl.
      repeat split.
      * lia.
      * constructor; [done|].
        eapply Forall2_impl; [exact Hb|]. intros q b' Hq. simpl in Hq. by rewrite upd_ibg_batch in Hq.
      * constructor; [eauto|].
        eapply Forall_impl; [exact Hmg|]. intros q Hq. simpl in Hq. by rewrite upd_ibg_mergeable in Hq.
      * rewrite Hg, <- app_assoc. done.
      * rewrite Hl, <- (last_cons_default (take k rest) p last). reflexivity.
      * right. destruct Hsz as [->|Hsz]; [simpl in Hb; inversion Hb; subst; simpl; lia | simpl; lia].
      * destruct (rest !! k) as [q|].
        -- rewrite !upd_ibg_mergeable, !upd_ibg_batch in Hnext.
           destruct Hnext as [[Hq Hs]|(b' & Hq & Hqb & Hs & Hlt)].
           ++ left. split; [done|]. lia.
           ++ right. exists b'. repeat split; auto. lia.
        -- lia.
Qed.

Example s2_group :
  match BuildBatchGroup s2_state with
  | Some (_, size, last, group) =>
      size = (60 * KB)%N /\ last = 2 /\ map wb_byte_size group = [50 * KB; 10 * KB]%N
  | None => False
  end.
Proof. vm_compute. auto. Qed.

(** The returned size counts the batch that did not fit. *)
Example overflow_pair_size :
  match BuildBatchGroup overflow_pair_state with
  | Some (_, size, last, group) =>
      size = (300 * KB)%N /\ last = 1 /\ group_bytes group = (100 * KB)%N
  | None => False
  end.
Proof. vm_compute. auto. Qed.

Lemma batch_group_max_size_le (size : N) : (batch_group_max_size size <= MB)%N.
Proof.
  unfold batch_group_max_size, KB, MB.
  destruct (N.leb_spec size (128 * 1024)); lia.
Qed.

(** [BuildBatchGroup] in terms of the prefix of [writers_] it takes. *)
Lemma build_batch_group_char (st st' : State) (fp : ptr) (rest : list ptr)
    (fb : WriteBatch) (size : N) (last : ptr) (group : list WriteBatch) :
  writers_ st = fp :: rest ->
  batch (heap st fp) = Some fb ->
  BuildBatchGroup st = Some (st', size, last, group) ->
  let first := heap st fp in
  let ms := batch_group_max_size (wb_byte_size fb) in
  exists k bs, k <= length rest /\ group = fb :: bs /\
    Forall2 (fun p b => batch (heap st p) = Some b) (take k rest) bs /\
    Forall (fun p => mergeable first (heap st p) = true) (take k rest) /\
    last = List.last (take k rest) fp /\
    (has_callback first = true -> k = 0) /\
    (k = 0 \/ (wb_byte_size fb + group_bytes bs <= ms)%N) /\
    match rest !! k with
    | None => size = (wb_byte_size fb + group_bytes bs)%N
    | Some p =>
        has_callback first = true /\ size = wb_byte_size fb \/
        mergeable first (heap st p) = false /\ size = (wb_byte_size fb + group_bytes bs)%N \/
        (exists b, batch (heap st p) = Some b /\
           size = (wb_byte_size fb + group_bytes bs + wb_byte_size b)%N /\ (ms < size)%N)
    end.
Proof.
  intros Hq Hfb H first ms.
  unfold BuildBatchGroup in H. rewrite Hq, Hfb in H.
  destruct (has_callback (heap st fp)) eqn:Hcb.
  - injection H as <- <- <- <-.
    exists 0, []. simpl. split; [lia|]. split; [done|].
    split; [constructor|]. split; [constructor|]. split; [done|].
    split; [done|]. split; [left; done|].
    destruct rest as [|p rest]; simpl; [lia|]. left. split; [done|lia].
  - destruct (build_loop (heap st fp) (batch_group_max_size (wb_byte_size fb))
                rest (heap st) (wb_byte_size fb) fp [fb])
      as [[[h size'] last'] group'] eqn:HL.
    injection H as <- <- <- <-.
    apply build_loop_char in HL as (k & bs & Hk & Hb & Hmg & Hg & Hl & Hsz & Hnext).
    exists k, bs. repeat (split; [done|]).
    split; [intros Hc; unfold first in Hc; congruence|]. split; [done|].
    destruct (rest !! k) as [p|].
    + destruct Hnext as [[Hm Hs]|(b & Hm & Hpb & Hs & Hlt)].
      * right. left. done.
      * right. right. exists b. done.
    + done.
Qed.

(** ** Claim C2 *)

(** C2, as stated, fails: with a 200 KiB initiator the code's limit is
    1 MiB, not [min(1 MiB, 200 KiB + 128 KiB)]; a following 300 KiB batch
    is merged and the group reaches 500 KiB. *)
Lemma build_batch_group_size_counterexample :
  match BuildBatchGroup big_pair_state with
  | Some (_, size, _, group) =>
      (N.min MB (200 * KB + 128 * KB) < size)%N /\
      (N.min MB (200 * KB + 128 * KB) < group_bytes group)%N
  | None => False
  end.
Proof. vm_compute. split; reflexivity. Qed.

(** C2 (amended). With [size] the byte size of [first.batch] and
    [max_size = size + 128 KiB] when [size <= 128 KiB] and [1 MiB]
    otherwise: the batches of the group total at most
    [max(size, max_size)], hence at most [max(size, 1 MiB)]; a group of two
    or more batches totals at most [max_size]. *)
Theorem build_batch_group_size_cap (st st' : State) (fp : ptr)
    (rest : list ptr) (fb : WriteBatch) (size : N) (last : ptr)
    (group : list WriteBatch) :
  writers_ st = fp :: rest ->
  batch (heap st fp) = Some fb ->
  BuildBatchGroup st = Some (st', size, last, group) ->
  let max_size := batch_group_max_size (wb_byte_size fb) in
  (group_bytes group <= N.max (wb_byte_size fb) max_size)%N /\
  (group_bytes group <= N.max (wb_byte_size fb) MB)%N /\
  (2 <= length group -> (group_bytes group <= max_size)%N).
Proof.
  intros Hq Hfb H max_size.
  pose proof (batch_group_max_size_le (wb_byte_size fb)) as Hle.
  apply build_batch_group_char with (fp := fp) (rest := rest) (fb := fb)
    in H as (k & bs & Hk & -> & Hb & _ & _ & Hcb & Hsz & Hnext); [|done..].
  fold max_size in Hle, Hsz, Hnext.
  assert (Hbs : k = 0 -> bs = []).
  { intros ->. simpl in Hb. by inversion Hb. }
  assert (Htot : (group_bytes (fb :: bs) <= N.max (wb_byte_size fb) max_size)%N).
  { simpl. destruct Hsz as [Hk0|Hsz].
    - rewrite (Hbs Hk0). simpl. lia.
    - lia. }
  split; [done|]. split; [lia|].
  intros Hlen. destruct Hsz as [Hk0|Hsz].
  - rewrite (Hbs Hk0) in Hlen. simpl in Hlen. lia.
  - simpl. lia.
Qed.

Lemma build_batch_group_size_cap_witness :
  let b1 := mkBatch (200 * KB) 1 in
  let b2 := mkBatch (300 * KB) 1 in
  let st' := set_heap big_pair_state
               (upd (heap big_pair_state) 2
                  (set_in_batch_group (heap big_pair_state 2))) in
  (writers_ big_pair_state = 1 :: [2] /\
   batch (heap big_pair_state 1) = Some b1 /\
   BuildBatchGroup big_pair_state = Some (st', (500 * KB)%N, 2, [b1; b2])) /\
  let max_size := batch_group_max_size (wb_byte_size b1) in
  (group_bytes [b1; b2] <= N.max (wb_byte_size b1) max_size)%N /\
  (group_bytes [b1; b2] <= N.max (wb_byte_size b1) MB)%N /\
  (2 <= length [b1; b2] -> (group_bytes [b1; b2] <= max_size)%N).
Proof.
  intros b1 b2 st'.
  assert (Hq : writers_ big_pair_state = 1 :: [2]) by reflexivity.
  assert (Hb : batch (heap big_pair_state 1) = Some b1) by reflexivity.
  assert (Hr : BuildBatchGroup big_pair_state = Some (st', (500 * KB)%N, 2, [b1; b2]))
    by reflexivity.
  split; [auto|].
  exact (build_batch_group_size_cap _ _ _ _ _ _ _ _ Hq Hb Hr).
Defined.

(** ** Claim C3 *)

(** C3. The batch group is the initiator followed by a prefix [take k rest]
    of the writers behind it in [writers_] ([*last_writer] is the last of
    them). Every writer of the prefix has no callback, a non-null batch, is
    not a sync writer under a non-sync initiator, does not need the WAL
    under a WAL-disabled initiator, and has a timeout hint no shorter than
    the initiator's. The writer right after the prefix, if any, fails one of
    these tests or the size limit (so the scan stopped there), and an
    initiator with a callback gets a group of itself alone. *)
Theorem build_batch_group_prefix (st st' : State) (fp : ptr)
    (rest : list ptr) (fb : WriteBatch) (size : N) (last : ptr)
    (group : list WriteBatch) :
  writers_ st = fp :: rest ->
  batch (heap st fp) = Some fb ->
  BuildBatchGroup st = Some (st', size, last, group) ->
  let first := heap st fp in
  let passes (w : Writer) :=
    has_callback w = false /\ batch w <> None /\
    ~ (sync w = true /\ sync first = false) /\
    ~ (disableWAL w = false /\ disableWAL first = true) /\
    (timeout_hint_us first <= timeout_hint_us w)%N in
  exists k bs, k <= length rest /\ group = fb :: bs /\
    Forall2 (fun p b => batch (heap st p) = Some b) (take k rest) bs /\
    last = List.last (take k rest) fp /\
    Forall (fun p => passes (heap st p)) (take k rest) /\
    (has_callback first = true -> k = 0 /\ group = [fb]) /\
    (forall p, rest !! k = Some p ->
       has_callback first = true \/ ~ passes (heap st p) \/
       (exists b, batch (heap st p) = Some b /\
          (batch_group_max_size (wb_byte_size fb)
             < wb_byte_size fb + group_bytes bs + wb_byte_size b)%N)).
Proof.
  intros Hq Hfb H first passes.
  apply build_batch_group_char with (fp := fp) (rest := rest) (fb := fb)
    in H as (k & bs & Hk & -> & Hb & Hmg & Hl & Hcb & _ & Hnext); [|done..].
  exists k, bs.
  split; [done|]. split; [done|]. split; [done|]. split; [done|].
  split.
  { eapply Forall_impl; [exact Hmg|]. intros p Hp. simpl in Hp.
    by apply mergeable_spec in Hp. }
  split.
  { intros Hc. specialize (Hcb Hc). subst k. simpl in Hb.
    inversion Hb. done. }
  intros p Hp. rewrite Hp in Hnext.
  destruct Hnext as [[Hc _]|[[Hm _]|(b & Hpb & Hs & Hlt)]].
  - by left.
  - right. left. intros Hpass. apply mergeable_spec in Hpass.
    unfold first in Hpass. congruence.
  - right. right. exists b. split; [done|]. rewrite <- Hs. done.
Qed.

Lemma build_batch_group_prefix_witness :
  let st' := set_heap s2_state
               (upd (heap s2_state) 2 (set_in_batch_group (heap s2_state 2))) in
  let fb := mkBatch (50 * KB) 1 in
  let group := [fb; mkBatch (10 * KB) 1] in
  (writers_ s2_state = 1 :: [2; 3; 4] /\
   batch (heap s2_state 1) = Some fb /\
   BuildBatchGroup s2_state = Some (st', (60 * KB)%N, 2, group)) /\
  let first := heap s2_state 1 in
  let passes (w : Writer) :=
    has_callback w = false /\ batch w <> None /\
    ~ (sync w = true /\ sync first = false) /\
    ~ (disableWAL w = false /\ disableWAL first = true) /\
    (timeout_hint_us first <= timeout_hint_us w)%N in
  exists k bs, k <= length [2; 3; 4] /\ group = fb :: bs /\
    Forall2 (fun p b => batch (heap s2_state p) = Some b) (take k [2; 3; 4]) bs /\
    2 = List.last (take k [2; 3; 4]) 1 /\
    Forall (fun p => passes (heap s2_state p)) (take k [2; 3; 4]) /\
    (has_callback first = true -> k = 0 /\ group = [fb]) /\
    (forall p, [2; 3; 4] !! k = Some p ->
       has_callback first = true \/ ~ passes (heap s2_state p) \/
       (exists b, batch (heap s2_state p) = Some b /\
          (batch_group_max_size (wb_byte_size fb)
             < wb_byte_size fb + group_bytes bs + wb_byte_size b)%N)).
Proof.
  intros st' fb group.
  assert (Hq : writers_ s2_state = 1 :: [2; 3; 4]) by reflexivity.
  assert (Hb : batch (heap s2_state 1) = Some fb) by reflexivity.
  assert (Hr : BuildBatchGroup s2_state = Some (st', (60 * KB)%N, 2, group))
    by reflexivity.
  split; [auto|].
  exact (build_batch_group_prefix _ _ _ _ _ _ _ _ Hq Hb Hr).
Defined.

(** ** EnterWriteThread *)

Example s4_enter :
  match EnterWriteThread 2 5 s4_trace s4_start with
  | Some (s, st, log) => s = OK /\ log = [StepExpiredInGroup; StepWait]
  | None => False
  end.
Proof. vm_compute. auto. Qed.

Example s5_enter :
  match EnterWriteThread 2 5 s5_trace s5_start with
  | Some (s, st, log) =>
      s = TimedOut /\ writers_ st = [1; 3] /\ signals st = [1]
  | None => False
  end.
Proof. vm_compute. auto. Qed.

(** With no deadline the loop only waits, and never times out. *)
Lemma enter_loop_untimed (w : ptr) (tr : list WaitEvent) :
  forall st st' t e l,
  enter_loop w 0 tr st = Some (st', t, e, l) ->
  t = false /\ e = 0 /\ Forall (eq StepWait) l.
Proof.
  induction tr as [|ev tr IH]; intros st st' t e l H; simpl in H;
    destruct (negb (wait_cond st w)).
  - injection H as <- <- <- <-. done.
  - discriminate.
  - injection H as <- <- <- <-. done.
  - destruct (enter_loop w 0 tr (ev_others ev st)) as [[[[st2 t2] e2] l2]|] eqn:E;
      [|discriminate].
    injection H as <- <- <- <-.
    destruct (IH _ _ _ _ _ E) as (-> & -> & Hl). auto.
Qed.

(** The loop ends with [timed_out] only at an expiry while
    [in_batch_group] is false, with the deadline never reset. *)
Lemma enter_loop_timed_out (w : ptr) (e : nat) (tr : list WaitEvent) :
  forall st st' e' l,
  enter_loop w e tr st = Some (st', true, e', l) ->
  e <> 0 /\ e' = e /\ in_batch_group (heap st' w) = false /\
  ~ In StepExpiredInGroup l /\ exists l0, l = l0 ++ [StepExpiredNotInGroup].
Proof.
  induction tr as [|ev tr IH]; intros st st' e' l H; simpl in H;
    destruct (negb (wait_cond st w)); try discriminate.
  - destruct (Nat.eqb e 0) eqn:He.
    + apply Nat.eqb_eq in He. subst e.
      destruct (enter_loop w 0 tr (ev_others ev st)) as [[[[st2 t2] e2] l2]|] eqn:E;
        [|discriminate].
      injection H as _ Ht _ _.
      destruct (enter_loop_untimed _ _ _ _ _ _ _ E) as [? _]. congruence.
    + apply Nat.eqb_neq in He.
      destruct (ev_timed_out ev).
      * destruct (in_batch_group (heap (ev_others ev st) w)) eqn:Hg.
        -- destruct (enter_loop w 0 tr (ev_others ev st)) as [[[[st2 t2] e2] l2]|] eqn:E;
             [|discriminate].
           injection H as _ Ht _ _.
           destruct (enter_loop_untimed _ _ _ _ _ _ _ E) as [? _]. congruence.
        -- injection H as <- <- <-.
           split; [done|]. split; [done|]. split; [done|].
           split; [simpl; intros [?|[]]; discriminate|]. exists []. done.
      * destruct (enter_loop w e tr (ev_others ev st)) as [[[[st2 t2] e2] l2]|] eqn:E;
          [|discriminate].
        injection H as <- Ht <- <-. subst t2.
        destruct (IH _ _ _ _ E) as (_ & -> & Hg & Hin & l0 & ->).
        split; [done|]. split; [done|]. split; [done|].
        split; [simpl; intros [?|?]; [discriminate|done]|].
        exists (StepTimedWaitNoExpire :: l0). done.
Qed.

(** After an expiry inside the batch group the loop only waits without a
    deadline, and does not time out. *)
Lemma enter_loop_in_group (w : ptr) (e : nat) (tr : list WaitEvent) :
  forall st st' t e' l,
  enter_loop w e tr st = Some (st', t, e', l) ->
  In StepExpiredInGroup l ->
  t = false /\ exists l1 l2, l = l1 ++ StepExpiredInGroup :: l2 /\
                             Forall (eq StepWait) l2.
Proof.
  induction tr as [|ev tr IH]; intros st st' t e' l H Hin; simpl in H;
    destruct (negb (wait_cond st w)).
  - injection H as <- <- <- <-. done.
  - discriminate.
  - injection H as <- <- <- <-. done.
  - destruct (Nat.eqb e 0) eqn:He.
    + apply Nat.eqb_eq in He. subst e.
      destruct (enter_loop w 0 tr (ev_others ev st)) as [[[[st2 t2] e2] l2]|] eqn:E;
        [|discriminate].
      injection H as <- <- <- <-.
      destruct (enter_loop_untimed _ _ _ _ _ _ _ E) as (_ & _ & Hl).
      exfalso. destruct Hin as [Hin|Hin]; [discriminate|].
      rewrite List.Forall_forall in Hl. specialize (Hl _ Hin). discriminate.
    + destruct (ev_timed_out ev).
      * destruct (in_batch_group (heap (ev_others ev st) w)) eqn:Hg.
        -- destruct (enter_loop w 0 tr (ev_others ev st)) as [[[[st2 t2] e2] l2]|] eqn:E;
             [|discriminate].
           injection H as <- <- <- <-.
           destruct (enter_loop_untimed _ _ _ _ _ _ _ E) as (-> & _ & Hl).
           split; [done|]. exists [], l2. done.
        -- injection H as <- <- <- <-.
           destruct Hin as [Hin|[]]. discriminate.
      * destruct (enter_loop w e tr (ev_others ev st)) as [[[[st2 t2] e2] l2]|] eqn:E;
          [|discriminate].
        injection H as <- <- <- <-.
        destruct Hin as [Hin|Hin]; [discriminate|].
        destruct (IH _ _ _ _ _ E Hin) as (-> & l1 & l3 & -> & Hl).
        split; [done|]. exists (StepTimedWaitNoExpire :: l1), l3. done.
Qed.

Lemma signal_front_heap (st : State) : heap (signal_front st) = heap st.
Proof. unfold signal_front. destruct (writers_ st) eqn:E; done. Qed.

Lemma signal_front_writers (st : State) : writers_ (signal_front st) = writers_ st.
Proof. unfold signal_front. destruct (writers_ st) eqn:E; simpl; done. Qed.

Lemma erase_first_not_in (w : ptr) (q : list ptr) :
  NoDup q -> ~ In w (erase_first w q).
Proof.
  induction q as [|p q IH]; simpl; [intros _ []|].
  intros Hnd. inversion Hnd as [|? ? Hp Hnd']; subst.
  destruct (Nat.eqb p w) eqn:E.
  - apply Nat.eqb_eq in E. subst p. intros Hin. apply Hp. by apply list_elem_of_In.
  - apply Nat.eqb_neq in E. simpl. intros [->|Hin]; [done|]. by apply IH.
Qed.

(** ** Claim C4 *)

(** C4. [EnterWriteThread] returns [TimedOut] only with a deadline
    ([expiration_time <> 0]) whose timed wait expired while
    [w.in_batch_group] was false (the last iteration of the loop), the
    deadline never having been dropped. Once a timed wait expires while
    [w.in_batch_group] is true, every later iteration is an untimed wait
    ([expiration_time = 0]) and the result is not [TimedOut]. *)
Theorem enter_write_thread_timed_out_only_outside_group (w : ptr)
    (expiration_time : nat) (tr : list WaitEvent) (st st' : State)
    (s : Status) (log : list LoopStep) :
  EnterWriteThread w expiration_time tr st = Some (s, st', log) ->
  (s = TimedOut ->
     expiration_time <> 0 /\ in_batch_group (heap st' w) = false /\
     ~ In StepExpiredInGroup log /\
     exists l0, log = l0 ++ [StepExpiredNotInGroup]) /\
  (In StepExpiredInGroup log ->
     s <> TimedOut /\
     exists l1 l2, log = l1 ++ StepExpiredInGroup :: l2 /\
                   Forall (eq StepWait) l2).
Proof.
  intros H. unfold EnterWriteThread in H.
  destruct (enter_loop w expiration_time tr (set_writers st (writers_ st ++ [w])))
    as [[[[st1 t] e1] l1]|] eqn:E; [|discriminate].
  destruct (negb (done (heap st1 w)) && (0 <? parallel_execute_id (heap st1 w))%Z).
  - injection H as <- <- <-. split; [discriminate|].
    intros Hin. destruct (enter_loop_in_group _ _ _ _ _ _ _ _ E Hin) as [_ Hl].
    split; [discriminate|done].
  - destruct t.
    + destruct (existsb (Nat.eqb w) (writers_ st1)); [|discriminate].
      injection H as <- <- <-.
      destruct (enter_loop_timed_out _ _ _ _ _ _ _ E) as (He & _ & Hg & Hnin & Hl).
      split.
      * intros _. rewrite signal_front_heap. done.
      * intros Hin. done.
    + injection H as <- <- <-. split; [discriminate|].
      intros Hin. destruct (enter_loop_in_group _ _ _ _ _ _ _ _ E Hin) as [_ Hl].
      split; [discriminate|done].
Qed.

Lemma enter_write_thread_timed_out_only_outside_group_witness :
  match EnterWriteThread 2 5 s4_trace s4_start with
  | Some (s, st', log) =>
      (s = TimedOut ->
         5 <> 0 /\ in_batch_group (heap st' 2) = false /\
         ~ In StepExpiredInGroup log /\
         exists l0, log = l0 ++ [StepExpiredNotInGroup]) /\
      (In StepExpiredInGroup log ->
         s <> TimedOut /\
         exists l1 l2, log = l1 ++ StepExpiredInGroup :: l2 /\
                       Forall (eq StepWait) l2)
  | None => False
  end.
Proof.
  destruct (EnterWriteThread 2 5 s4_trace s4_start) as [[[s st'] log]|] eqn:E.
  - exact (enter_write_thread_timed_out_only_outside_group _ _ _ _ _ _ _ E).
  - vm_compute in E. discriminate.
Defined.

(** ** Claim C6 *)

(** C6. When [EnterWriteThread] returns [TimedOut], the wait loop broke on
    an expiry with [w] still in [writers_]; [w] is erased from [writers_]
    (no longer in it, the queue holding each writer once), and the only
    signal sent is to the new head of [writers_], when there is one. *)
Theorem enter_write_thread_timeout_repair (w : ptr) (expiration_time : nat)
    (tr : list WaitEvent) (st st' : State) (log : list LoopStep) :
  EnterWriteThread w expiration_time tr st = Some (TimedOut, st', log) ->
  exists st1,
    enter_loop w expiration_time tr (set_writers st (writers_ st ++ [w]))
      = Some (st1, true, expiration_time, log) /\
    In w (writers_ st1) /\
    writers_ st' = erase_first w (writers_ st1) /\
    (NoDup (writers_ st1) -> ~ In w (writers_ st')) /\
    heap st' = heap st1 /\
    match writers_ st' with
    | [] => signals st' = signals st1
    | h :: _ => signals st' = signals st1 ++ [h]
    end.
Proof.
  intros H. unfold EnterWriteThread in H.
  destruct (enter_loop w expiration_time tr (set_writers st (writers_ st ++ [w])))
    as [[[[st1 t] e1] l1]|] eqn:E; [|discriminate].
  destruct (negb (done (heap st1 w)) && (0 <? parallel_execute_id (heap st1 w))%Z);
    [discriminate|].
  destruct t; [|discriminate].
  destruct (existsb (Nat.eqb w) (writers_ st1)) eqn:Hex; [|discriminate].
  injection H as <- <-.
  destruct (enter_loop_timed_out _ _ _ _ _ _ _ E) as (_ & -> & _).
  exists st1. split; [done|].
  split.
  { apply existsb_exists in Hex as (x & Hx & Hxe).
    apply Nat.eqb_eq in Hxe. by subst x. }
  rewrite signal_front_writers, signal_front_heap. simpl.
  split; [done|]. split; [apply erase_first_not_in|]. split; [done|].
  unfold signal_front. simpl.
  destruct (erase_first w (writers_ st1)); done.
Qed.

Lemma enter_write_thread_timeout_repair_witness :
  match EnterWriteThread 2 5 s5_trace s5_start with
  | Some (TimedOut, st', log) =>
      exists st1,
        enter_loop 2 5 s5_trace (set_writers s5_start (writers_ s5_start ++ [2]))
          = Some (st1, true, 5, log) /\
        In 2 (writers_ st1) /\
        writers_ st' = erase_first 2 (writers_ st1) /\
        (NoDup (writers_ st1) -> ~ In 2 (writers_ st')) /\
        heap st' = heap st1 /\
        match writers_ st' with
        | [] => signals st' = signals st1
        | h :: _ => signals st' = signals st1 ++ [h]
        end
  | _ => False
  end.
Proof.
  destruct (EnterWriteThread 2 5 s5_trace s5_start) as [[[s st'] log]|] eqn:E.
  - destruct s; try (vm_compute in E; discriminate).
    exact (enter_write_thread_timeout_repair _ _ _ _ _ _ E).
  - vm_compute in E. discriminate.
Defined.

(** ** StartParallelRun *)

Example s6_start :
  match StartParallelRun 1 3 3 s6_state with
  | Some st =>
      parallel_writers_ st = [1; 2; 3] /\ writers_ st = [3; 4] /\
      map (fun p => parallel_execute_id (heap st p)) [1; 2; 3] = [1; 3; 6]%Z /\
      signals st = [2; 3] /\ unfinished_threads_ st = 3%Z
  | None => False
  end.
Proof. vm_compute. auto 10. Qed.

Lemma upd_pid_count (h : ptr -> Writer) (p q : ptr) (x : Z) :
  writer_count (upd h p (set_parallel_execute_id (h p) x) q) = writer_count (h q).
Proof. unfold upd. destruct (Nat.eqb q p) eqn:E; [apply Nat.eqb_eq in E; subst|]; done. Qed.

Lemma counts_before_upd_pid (h : ptr -> Writer) (p : ptr) (x : Z) (ps : list ptr) :
  counts_before (upd h p (set_parallel_execute_id (h p) x)) ps = counts_before h ps.
Proof. induction ps as [|q ps IH]; simpl; [done|]. by rewrite IH, upd_pid_count. Qed.

(** The loop of [StartParallelRun] over [pre ++ last_writer :: post]
    moves [pre ++ [last_writer]] to [parallel_writers_], keeps
    [last_writer :: post] in [writers_], and numbers the moved writers from
    [parallel_id] by their batch counts. *)
Lemma start_loop_char (w lw : ptr) (post : list ptr) (pre : list ptr) :
  forall pid pw h sg,
  ~ In lw pre -> NoDup (pre ++ [lw]) ->
  Forall (fun p => batch (h p) <> None) (pre ++ [lw]) ->
  exists h' sg',
    start_loop w lw pid (pre ++ lw :: post) pw h sg
      = Some (lw :: post, pw ++ pre ++ [lw], h', sg') /\
    (forall p, ~ In p (pre ++ [lw]) -> h' p = h p) /\
    (forall i p, (pre ++ [lw]) !! i = Some p ->
       parallel_execute_id (h' p) = (pid + counts_before h (take i (pre ++ [lw])))%Z).
Proof.
  induction pre as [|p pre IH]; intros pid pw h sg Hlw Hnd Hb.
  - simpl. inversion Hb as [|? ? Hlb _]; subst.
    unfold upd at 1. rewrite Nat.eqb_refl. simpl.
    destruct (batch (h lw)) as [b|] eqn:E; [|done]. simpl.
    eexists _, _. split; [reflexivity|]. split.
    + intros q Hq. unfold upd. destruct (Nat.eqb q lw) eqn:Eq; [|done].
      apply Nat.eqb_eq in Eq. subst. exfalso. apply Hq. by left.
    + intros i q Hi. destruct i as [|i]; [|destruct i; discriminate].
      simpl in Hi. injection Hi as <-. unfold upd. rewrite Nat.eqb_refl. simpl. lia.
  - simpl in Hlw. apply Decidable.not_or in Hlw as [Hplw Hlw].
    simpl in Hnd. inversion Hnd as [|? ? Hpn Hnd']; subst.
    simpl in Hb. inversion Hb as [|? ? Hpb Hb']; subst.
    simpl. unfold upd at 1. rewrite Nat.eqb_refl. simpl.
    destruct (batch (h p)) as [b|] eqn:E; [|done].
    assert (Hne : Nat.eqb p lw = false) by (apply Nat.eqb_neq; congruence).
    rewrite Hne. simpl.
    set (h1 := upd h p (set_parallel_execute_id (h p) pid)).
    assert (Hb1 : Forall (fun q => batch (h1 q) <> None) (pre ++ [lw])).
    { eapply Forall_impl; [exact Hb'|]. intros q Hq. simpl.
      unfold h1, upd. destruct (Nat.eqb q p) eqn:Eq; [|done].
      apply Nat.eqb_eq in Eq. subst. simpl. done. }
    destruct (IH (pid + Z.of_nat (wb_count b))%Z (pw ++ [p]) h1
                (if Nat.eqb p w then sg else sg ++ [p]) Hlw Hnd' Hb1)
      as (h' & sg' & Hrun & Hout & Hid).
    exists h', sg'. rewrite Hrun, <- app_assoc. split; [done|]. split.
    + intros q Hq. rewrite Hout.
      * unfold h1, upd. destruct (Nat.eqb q p) eqn:Eq; [|done].
        apply Nat.eqb_eq in Eq. subst. exfalso. apply Hq. by left.
      * intros Hin. apply Hq. by right.
    + intros i q Hi. destruct i as [|i].
      * simpl in Hi. injection Hi as <-. rewrite Hout.
        -- unfold h1, upd. rewrite Nat.eqb_refl. simpl. lia.
        -- intros Hin. apply Hpn. by apply list_elem_of_In.
      * simpl in Hi. rewrite (Hid i q Hi). unfold h1.
        rewrite counts_before_upd_pid. simpl.
        unfold writer_count at 1. rewrite E. lia.
Qed.

Lemma start_loop_length (w lw : ptr) (q : list ptr) :
  forall pid pw h sg q' pw' h' sg',
  start_loop w lw pid q pw h sg = Some (q', pw', h', sg') ->
  length pw <= length pw' /\ (q <> [] -> length pw < length pw').
Proof.
  induction q as [|p q IH]; intros pid pw h sg q' pw' h' sg' H; simpl in H.
  - injection H as <- <- <- <-. split; [lia|done].
  - destruct (batch _) as [b|]; [|discriminate].
    destruct (negb (Nat.eqb p lw)).
    + apply IH in H as [H1 _]. rewrite length_app in H1. simpl in H1. lia.
    + injection H as <- <- <- <-. rewrite length_app. simpl. lia.
Qed.

(** ** Claim C5 *)

(** C5, as stated, fails: its preconditions do not tie [num_threads] to
    the batch group. With the group [1; 2] and [num_threads = 3], the loop
    moves two writers, so [parallel_writers_.size()] is 2, and the call
    aborts on [assert(num_threads == parallel_writers_.size())]. *)
Lemma start_parallel_run_counterexample :
  let st := sample_state [1; 2]
              [(1, sample_writer 100 1 false false false 0);
               (2, sample_writer 100 1 false false false 0)] in
  unfinished_threads_ st = 0%Z /\ writers_ st = [1; 2] /\
  match start_parallel_run_body 1 3 2 st with
  | Some st' => length (parallel_writers_ st') = 2 /\
                writers_ st' = [2]
  | None => False
  end /\
  StartParallelRun 1 3 2 st = None.
Proof. vm_compute. auto. Qed.

(** C5 (amended). If [unfinished_threads_ == 0], [parallel_writers_] is
    empty, [writers_] is [pre ++ last_writer :: post] with the leader at
    its head and [last_writer] not in [pre], the writers of
    [pre ++ [last_writer]] are distinct with non-null batches, and
    [num_threads] is their number, then [StartParallelRun] completes with
    [parallel_writers_ = pre ++ [last_writer]] (so its size is
    [num_threads] and its back is [last_writer]), [writers_ =
    last_writer :: post] (so its front is [last_writer]), the counter at
    [num_threads], and the [i]-th moved writer's [parallel_execute_id]
    equal to 1 plus the batch counts of the writers before it. Called on
    the same state with any other [num_threads], it aborts on
    [assert(num_threads == parallel_writers_.size())]. *)
Theorem start_parallel_run_post (w last_writer : ptr) (num_threads : nat)
    (pre post : list ptr) (st : State) :
  unfinished_threads_ st = 0%Z ->
  parallel_writers_ st = [] ->
  writers_ st = pre ++ last_writer :: post ->
  head (pre ++ [last_writer]) = Some w ->
  ~ In last_writer pre ->
  NoDup (pre ++ [last_writer]) ->
  Forall (fun p => batch (heap st p) <> None) (pre ++ [last_writer]) ->
  num_threads = length (pre ++ [last_writer]) ->
  exists st',
    StartParallelRun w num_threads last_writer st = Some st' /\
    parallel_writers_ st' = pre ++ [last_writer] /\
    length (parallel_writers_ st') = num_threads /\
    List.last (parallel_writers_ st') w = last_writer /\
    writers_ st' = last_writer :: post /\
    unfinished_threads_ st' = (Z.of_nat num_threads mod two32)%Z /\
    (forall i p, (pre ++ [last_writer]) !! i = Some p ->
       parallel_execute_id (heap st' p) =
         (1 + counts_before (heap st) (take i (pre ++ [last_writer])))%Z) /\
    (forall n, n <> num_threads -> StartParallelRun w n last_writer st = None).
Proof.
  intros Hu Hpw Hq Hhd Hlw Hnd Hb Hn.
  destruct (start_loop_char w last_writer post pre 1 [] (heap st) (signals st)
              Hlw Hnd Hb) as (h' & sg' & Hrun & _ & Hid).
  eexists. unfold StartParallelRun, start_parallel_run_body.
  rewrite Hu, Hq, Hpw, Hrun. simpl.
  rewrite Hn, Nat.eqb_refl. split; [reflexivity|]. simpl.
  split; [done|]. split; [done|]. split.
  { apply List.last_last. }
  split; [done|]. split; [done|]. split; [exact Hid|].
  intros n Hne. apply Nat.eqb_neq in Hne. by rewrite Hne.
Qed.

Lemma start_parallel_run_post_witness :
  exists st',
    StartParallelRun 1 3 3 s6_state = Some st' /\
    parallel_writers_ st' = [1; 2] ++ [3] /\
    length (parallel_writers_ st') = 3 /\
    List.last (parallel_writers_ st') 1 = 3 /\
    writers_ st' = [3; 4] /\
    unfinished_threads_ st' = (Z.of_nat 3 mod two32)%Z /\
    (forall i p, ([1; 2] ++ [3]) !! i = Some p ->
       parallel_execute_id (heap st' p) =
         Z.add 1 (counts_before (heap s6_state) (take i ([1; 2] ++ [3])))) /\
    (forall n, n <> 3 -> StartParallelRun 1 n 3 s6_state = None).
Proof.
  apply (start_parallel_run_post 1 3 3 [1; 2] [4] s6_state).
  - reflexivity.
  - reflexivity.
  - reflexivity.
  - reflexivity.
  - simpl. intros [H|[H|[]]]; discriminate.
  - apply (bool_decide_unpack _). vm_compute. reflexivity.
  - repeat constructor; vm_compute; discriminate.
  - reflexivity.
Defined.

(** ** Claim C8 *)

Lemma report_n_from (k : nat) :
  forall st, unfinished_threads_ st = Z.of_nat k -> 1 <= k ->
  (Z.of_nat k < two32)%Z ->
  fst (report_n k st) = repeat false (k - 1) ++ [true] /\
  unfinished_threads_ (snd (report_n k st)) = 0%Z.
Proof.
  induction k as [|k IH]; intros st Hu Hk Hlt; [lia|].
  set (st1 := mkState (writers_ st) (parallel_writers_ st)
                ((unfinished_threads_ st - 1) mod two32) (heap st) (signals st)).
  assert (Hu1 : unfinished_threads_ st1 = Z.of_nat k).
  { simpl. rewrite Hu, Z.mod_small; lia. }
  change (report_n (S k) st) with
    (let '(bs, st2) := report_n k st1 in ((unfinished_threads_ st =? 1)%Z :: bs, st2)).
  rewrite Hu.
  destruct k as [|k].
  - simpl. split; [reflexivity|exact Hu1].
  - destruct (IH st1 Hu1 ltac:(lia) ltac:(lia)) as [H1 H2].
    assert (Hb : (Z.of_nat (S (S k)) =? 1)%Z = false) by (apply Z.eqb_neq; lia).
    rewrite Hb.
    destruct (report_n (S k) st1) as [bs st2]. simpl in H1, H2 |- *.
    rewrite H1. replace (k - 0) with k by lia. split; [reflexivity|exact H2].
Qed.

(** C8. [ReportParallelRunFinish] returns whether the counter it
    decrements (modulo 2^32) was 1; after a [StartParallelRun] with
    [num_threads] (a [uint32_t]) that completes on a non-empty [writers_],
    the next [num_threads] calls return [false] except the last, which
    returns [true], and leave the counter at 0. *)
Theorem report_parallel_run_finish_once (w last_writer : ptr)
    (num_threads : nat) (st st' : State) :
  (Z.of_nat num_threads < two32)%Z ->
  writers_ st <> [] ->
  StartParallelRun w num_threads last_writer st = Some st' ->
  (forall s, fst (ReportParallelRunFinish s) = (unfinished_threads_ s =? 1)%Z /\
             unfinished_threads_ (snd (ReportParallelRunFinish s))
               = ((unfinished_threads_ s - 1) mod two32)%Z) /\
  fst (report_n num_threads st') = repeat false (num_threads - 1) ++ [true] /\
  unfinished_threads_ (snd (report_n num_threads st')) = 0%Z.
Proof.
  intros Hlt Hne H.
  split; [intros s; split; reflexivity|].
  unfold StartParallelRun, start_parallel_run_body in H.
  destruct (negb (unfinished_threads_ st =? 0)%Z); [discriminate|].
  destruct (start_loop w last_writer 1 (writers_ st) (parallel_writers_ st)
              (heap st) (signals st)) as [[[[q pw] h] sg]|] eqn:E; [|discriminate].
  simpl in H.
  destruct (Nat.eqb num_threads (length pw)) eqn:En; [|discriminate].
  injection H as <-. apply Nat.eqb_eq in En.
  apply start_loop_length in E as [_ Hlen]. specialize (Hlen Hne).
  apply report_n_from; simpl; [rewrite Z.mod_small; lia|lia|done].
Qed.

Lemma report_parallel_run_finish_once_witness :
  match StartParallelRun 1 3 3 s6_state with
  | Some st' =>
      (forall s, fst (ReportParallelRunFinish s) = (unfinished_threads_ s =? 1)%Z /\
                 unfinished_threads_ (snd (ReportParallelRunFinish s))
                   = ((unfinished_threads_ s - 1) mod two32)%Z) /\
      fst (report_n 3 st') = repeat false (3 - 1) ++ [true] /\
      unfinished_threads_ (snd (report_n 3 st')) = 0%Z
  | None => False
  end.
Proof.
  destruct (StartParallelRun 1 3 3 s6_state) as [st'|] eqn:E.
  - apply (report_parallel_run_finish_once 1 3 3 s6_state st');
      [vm_compute; reflexivity | discriminate | exact E].
  - vm_compute in E. discriminate.
Defined.

(** ** Claim C7 *)

Example s2_exit :
  let st := ExitWriteThread 1 2 (IOError "disk") s2_state in
  writers_ st = [3; 4] /\ signals st = [2; 3] /\
  status (heap st 2) = IOError "disk" /\ done (heap st 2) = true /\
  done (heap st 1) = false.
Proof. vm_compute. auto 10. Qed.

Lemma exit_loop_char (w lw : ptr) (s : Status) (post : list ptr) (pre : list ptr) :
  forall h sg, ~ In lw pre ->
  exists h',
    exit_loop w lw s (pre ++ lw :: post) h sg =
      (post, h', sg ++ List.filter (fun p => negb (Nat.eqb p w)) (pre ++ [lw])) /\
    (forall p, In p (pre ++ [lw]) -> p <> w -> status (h' p) = s /\ done (h' p) = true) /\
    (forall p, ~ In p (pre ++ [lw]) -> h' p = h p).
Proof.
  induction pre as [|p0 pre IH]; intros h sg Hlw.
  - simpl. rewrite Nat.eqb_refl.
    destruct (Nat.eqb lw w) eqn:Ew; simpl.
    + apply Nat.eqb_eq in Ew. subst. exists h.
      rewrite app_nil_r. split; [done|]. split; [|done].
      intros p [<-|[]] Hne. done.
    + apply Nat.eqb_neq in Ew. eexists. split; [reflexivity|]. split.
      * intros p [<-|[]] _. unfold upd. rewrite Nat.eqb_refl. done.
      * intros p Hp. unfold upd. destruct (Nat.eqb p lw) eqn:Ep; [|done].
        apply Nat.eqb_eq in Ep. subst. exfalso. apply Hp. by left.
  - simpl in Hlw. apply Decidable.not_or in Hlw as [Hp0 Hlw].
    simpl.
    assert (Hne : Nat.eqb p0 lw = false) by (apply Nat.eqb_neq; congruence).
    destruct (Nat.eqb p0 w) eqn:Ew; simpl; rewrite Hne.
    + destruct (IH h sg Hlw) as (h' & Hrun & Hdone & Hout).
      exists h'. rewrite Hrun. split; [done|]. split.
      * intros p [<-|Hp] Hpw; [apply Nat.eqb_eq in Ew; done|]. by apply Hdone.
      * intros p Hp. apply Hout. intros Hin. apply Hp. by right.
    + set (h1 := upd h p0 (set_done_status (h p0) s)).
      destruct (IH h1 (sg ++ [p0]) Hlw) as (h' & Hrun & Hdone & Hout).
      exists h'. rewrite Hrun, <- app_assoc. split; [done|]. split.
      * intros p [<-|Hp] Hpw; [|by apply Hdone].
        destruct (in_dec Nat.eq_dec p0 (pre ++ [lw])) as [Hin|Hin];
          [by apply Hdone|].
        rewrite Hout by done. unfold h1, upd. rewrite Nat.eqb_refl. done.
      * intros p Hp. rewrite Hout.
        -- unfold h1, upd. destruct (Nat.eqb p p0) eqn:Ep; [|done].
           apply Nat.eqb_eq in Ep. subst. exfalso. apply Hp. by left.
        -- intros Hin. apply Hp. by right.
Qed.

(** C7. With [writers_ = pre ++ last_writer :: post] ([last_writer] not in
    [pre]), [ExitWriteThread(w, last_writer, status)] leaves
    [writers_ = post]; every popped writer other than [w] gets [status]
    and [done = true]; writers not popped are untouched; the signals sent
    are, in order, one to each popped writer other than [w], then one to
    the new head of [writers_] when it is non-empty. *)
Theorem exit_write_thread_pops_group (w last_writer : ptr) (s : Status)
    (pre post : list ptr) (st : State) :
  writers_ st = pre ++ last_writer :: post ->
  ~ In last_writer pre ->
  let st' := ExitWriteThread w last_writer s st in
  writers_ st' = post /\
  (forall p, In p (pre ++ [last_writer]) -> p <> w ->
     status (heap st' p) = s /\ done (heap st' p) = true) /\
  (forall p, ~ In p (pre ++ [last_writer]) -> heap st' p = heap st p) /\
  signals st' = signals st ++
                List.filter (fun p => negb (Nat.eqb p w)) (pre ++ [last_writer]) ++
                match post with [] => [] | h :: _ => [h] end.
Proof.
  intros Hq Hlw st'.
  destruct (exit_loop_char w last_writer s post pre (heap st) (signals st) Hlw)
    as (h' & Hrun & Hdone & Hout).
  unfold st', ExitWriteThread. rewrite Hq, Hrun.
  unfold signal_front. simpl.
  destruct post as [|p post]; simpl.
  - rewrite app_nil_r. done.
  - rewrite <- app_assoc. done.
Qed.

Lemma exit_write_thread_pops_group_witness :
  let st' := ExitWriteThread 1 2 OK s2_state in
  writers_ st' = [3; 4] /\
  (forall p, In p ([1] ++ [2]) -> p <> 1 ->
     status (heap st' p) = OK /\ done (heap st' p) = true) /\
  (forall p, ~ In p ([1] ++ [2]) -> heap st' p = heap s2_state p) /\
  signals st' = signals s2_state ++
                List.filter (fun p => negb (Nat.eqb p 1)) ([1] ++ [2]) ++
                match [3; 4] with [] => [] | h :: _ => [h] end.
Proof.
  apply (exit_write_thread_pops_group 1 2 OK [1] [3; 4] s2_state).
  - reflexivity.
  - simpl. intros [H|[]]. discriminate.
Defined.

(** ** Further properties of the write thread *)

Lemma set_in_batch_group_idem (w : Writer) :
  set_in_batch_group (set_in_batch_group w) = set_in_batch_group w.
Proof. by destruct w. Qed.

Lemma set_done_status_idem (w : Writer) (s : Status) :
  set_done_status (set_done_status w s) s = set_done_status w s.
Proof. by destruct w. Qed.

Lemma set_done_idem (w : Writer) : set_done (set_done w) = set_done w.
Proof. by destruct w. Qed.

(** The loop of [EnterWriteThread] ends without [timed_out] only once its
    condition is false. *)
Lemma enter_loop_exit (w : ptr) (tr : list WaitEvent) :
  forall e st st' e' l,
  enter_loop w e tr st = Some (st', false, e', l) -> wait_cond st' w = false.
Proof.
  induction tr as [|ev tr IH]; intros e st st' e' l H; simpl in H;
    destruct (wait_cond st w) eqn:Hc; simpl in H.
  - discriminate.
  - injection H as <- _ _. done.
  - destruct (Nat.eqb e 0).
    + destruct (enter_loop w e tr (ev_others ev st)) as [[[[st2 t2] e2] l2]|] eqn:E;
        [|discriminate].
      injection H as <- Ht <- <-. subst t2. eapply IH; exact E.
    + destruct (ev_timed_out ev); [destruct (in_batch_group _)|].
      * destruct (enter_loop w 0 tr (ev_others ev st)) as [[[[st2 t2] e2] l2]|] eqn:E;
          [|discriminate].
        injection H as <- Ht <- <-. subst t2. eapply IH; exact E.
      * discriminate.
      * destruct (enter_loop w e tr (ev_others ev st)) as [[[[st2 t2] e2] l2]|] eqn:E;
          [|discriminate].
        injection H as <- Ht <- <-. subst t2. eapply IH; exact E.
  - injection H as <- _ _. done.
Qed.

(** The scan of [BuildBatchGroup] flags [in_batch_group] on exactly the
    writers of the prefix it takes. *)
Lemma build_loop_take (first : Writer) (ms : N) (rest : list ptr) :
  forall h (size : N) last group h' size' last' group',
  build_loop first ms rest h size last group = (h', size', last', group') ->
  exists k, k <= length rest /\ last' = List.last (take k rest) last /\
    length group' = length group + k /\
    (forall p, h' p = if existsb (Nat.eqb p) (take k rest)
                      then set_in_batch_group (h p) else h p).
Proof.
  induction rest as [|p rest IH]; intros h size last group h' size' last' group' H;
    simpl in H.
  - injection H as <- _ <- <-. exists 0. simpl. split; [lia|]. split; [done|].
    split; [lia|done].
  - assert (Hstop : (h, size, last, group) = (h', size', last', group') ->
              exists k, k <= length (p :: rest) /\
                last' = List.last (take k (p :: rest)) last /\
                length group' = length group + k /\
                (forall q, h' q = if existsb (Nat.eqb q) (take k (p :: rest))
                                  then set_in_batch_group (h q) else h q)).
    { intros Hs. injection Hs as <- _ <- <-. exists 0. simpl.
      split; [lia|]. split; [done|]. split; [lia|done]. }
    destruct (sync (h p) && negb (sync first)); [by apply Hstop|].
    destruct (negb (disableWAL (h p)) && disableWAL first); [by apply Hstop|].
    destruct (timeout_hint_us (h p) <? timeout_hint_us first)%N; [by apply Hstop|].
    destruct (has_callback (h p)); [by apply Hstop|].
    destruct (batch (h p)) as [b|]; [|by apply Hstop].
    destruct (ms <? size + wb_byte_size b)%N.
    { injection H as <- _ <- <-. exists 0. simpl.
      split; [lia|]. split; [done|]. split; [lia|done]. }
    apply IH in H as (k & Hk & Hl & Hg & Hh).
    exists (S k). simpl. split; [lia|]. split.
    { rewrite Hl, <- (last_cons_default (take k rest) p last). reflexivity. }
    split; [rewrite Hg, length_app; simpl; lia|].
    intros q. rewrite Hh. unfold upd.
    destruct (Nat.eqb q p) eqn:Eq; simpl.
    + apply Nat.eqb_eq in Eq. subst q.
      destruct (existsb (Nat.eqb p) (take k rest)); by rewrite ?set_in_batch_group_idem.
    + done.
Qed.

(** [BuildBatchGroup] in terms of the number [k] of writers it merges
    behind the initiator: it only changes the heap. *)
Lemma build_batch_group_take (st st1 : State) (fp : ptr) (rest : list ptr)
    (size : N) (last : ptr) (group : list WriteBatch) :
  writers_ st = fp :: rest ->
  BuildBatchGroup st = Some (st1, size, last, group) ->
  exists k, k <= length rest /\ length group = S k /\
    last = List.last (take k rest) fp /\
    writers_ st1 = writers_ st /\ parallel_writers_ st1 = parallel_writers_ st /\
    unfinished_threads_ st1 = unfinished_threads_ st /\ signals st1 = signals st /\
    (forall p, heap st1 p = if existsb (Nat.eqb p) (take k rest)
                            then set_in_batch_group (heap st p) else heap st p).
Proof.
  intros Hq H. unfold BuildBatchGroup in H. rewrite Hq in H.
  destruct (batch (heap st fp)) as [fb|]; [|discriminate].
  destruct (has_callback (heap st fp)).
  - injection H as <- _ <- <-. exists 0. simpl. repeat (split; [lia || done|]). done.
  - destruct (build_loop (heap st fp) (batch_group_max_size (wb_byte_size fb))
                rest (heap st) (wb_byte_size fb) fp [fb])
      as [[[h size'] last'] group'] eqn:HL.
    injection H as <- _ <- <-.
    apply build_loop_take in HL as (k & Hk & Hl & Hg & Hh).
    exists k. simpl in Hg |- *. repeat (split; [lia || done|]). done.
Qed.

(** The heap after the pop loop of [ExitWriteThread]: the popped writers
    other than [w] are done with [status]. *)
Lemma exit_loop_heap (w lw : ptr) (s : Status) (post : list ptr) (pre : list ptr) :
  forall h sg p, ~ In lw pre ->
  (let '(_, h', _) := exit_loop w lw s (pre ++ lw :: post) h sg in h' p) =
    if existsb (Nat.eqb p) (pre ++ [lw])
    then (if Nat.eqb p w then h p else set_done_status (h p) s)
    else h p.
Proof.
  induction pre as [|p0 pre IH]; intros h sg p Hlw.
  - simpl. rewrite Nat.eqb_refl, orb_false_r.
    destruct (Nat.eqb lw w) eqn:Ew; simpl.
    + apply Nat.eqb_eq in Ew. subst lw.
      by destruct (Nat.eqb p w).
    + unfold upd. destruct (Nat.eqb p lw) eqn:Ep; [|done].
      apply Nat.eqb_eq in Ep. subst p. by rewrite Ew.
  - simpl in Hlw. apply Decidable.not_or in Hlw as [Hp0 Hlw].
    simpl.
    assert (Hne : Nat.eqb p0 lw = false) by (apply Nat.eqb_neq; congruence).
    destruct (Nat.eqb p0 w) eqn:Ew; simpl; rewrite Hne.
    + rewrite IH by done. apply Nat.eqb_eq in Ew. subst p0.
      destruct (Nat.eqb p w) eqn:Epw; simpl; [|done].
      by destruct (existsb (Nat.eqb p) (pre ++ [lw])).
    + rewrite IH by done. unfold upd.
      destruct (Nat.eqb p p0) eqn:Ep; simpl; [|done].
      apply Nat.eqb_eq in Ep. subst p. rewrite Ew.
      destruct (existsb (Nat.eqb p0) (pre ++ [lw])); by rewrite ?set_done_status_idem.
Qed.

(** The pop loop of [ExitWriteThread] when [last_writer] is not queued. *)
Lemma exit_loop_absent (w lw : ptr) (s : Status) (q : list ptr) :
  forall h sg, ~ In lw q ->
  exists h',
    exit_loop w lw s q h sg = ([], h', sg ++ List.filter (fun p => negb (Nat.eqb p w)) q) /\
    (forall p, h' p = if existsb (Nat.eqb p) q
                      then (if Nat.eqb p w then h p else set_done_status (h p) s)
                      else h p).
Proof.
  induction q as [|p0 q IH]; intros h sg Hlw.
  - exists h. simpl. rewrite app_nil_r. done.
  - simpl in Hlw. apply Decidable.not_or in Hlw as [Hp0 Hlw].
    simpl.
    assert (Hne : Nat.eqb p0 lw = false) by (apply Nat.eqb_neq; congruence).
    destruct (Nat.eqb p0 w) eqn:Ew; simpl; rewrite Hne.
    + destruct (IH h sg Hlw) as (h' & Hrun & Hh).
      exists h'. split; [done|]. intros p. rewrite Hh.
      apply Nat.eqb_eq in Ew. subst p0.
      destruct (Nat.eqb p w) eqn:Epw; simpl; [|done].
      by destruct (existsb (Nat.eqb p) q).
    + destruct (IH (upd h p0 (set_done_status (h p0) s)) (sg ++ [p0]) Hlw)
        as (h' & Hrun & Hh).
      exists h'. rewrite Hrun, <- app_assoc. split; [done|].
      intros p. rewrite Hh. unfold upd.
      destruct (Nat.eqb p p0) eqn:Ep; simpl; [|done].
      apply Nat.eqb_eq in Ep. subst p. rewrite Ew.
      destruct (existsb (Nat.eqb p0) q); by rewrite ?set_done_status_idem.
Qed.

Lemma filter_neq_notin (w : ptr) (l : list ptr) :
  ~ In w l -> List.filter (fun p => negb (Nat.eqb p w)) l = l.
Proof.
  induction l as [|p l IH]; simpl; [done|]. intros Hn.
  apply Decidable.not_or in Hn as [Hp Hn].
  assert (Nat.eqb p w = false) as -> by (apply Nat.eqb_neq; congruence).
  simpl. by rewrite IH.
Qed.

Lemma existsb_eqb_In (p : ptr) (l : list ptr) :
  existsb (Nat.eqb p) l = true <-> In p l.
Proof.
  rewrite existsb_exists. split.
  - intros (x & Hx & E). apply Nat.eqb_eq in E. by subst.
  - intros Hp. exists p. split; [done|]. apply Nat.eqb_refl.
Qed.

Lemma existsb_eqb_notIn (p : ptr) (l : list ptr) :
  ~ In p l -> existsb (Nat.eqb p) l = false.
Proof.
  intros Hn. destruct (existsb (Nat.eqb p) l) eqn:E; [|done].
  apply existsb_eqb_In in E. done.
Qed.

Lemma signal_front_parallel (st : State) :
  parallel_writers_ (signal_front st) = parallel_writers_ st.
Proof. unfold signal_front. by destruct (writers_ st). Qed.

Lemma signal_front_unfinished (st : State) :
  unfinished_threads_ (signal_front st) = unfinished_threads_ st.
Proof. unfold signal_front. by destruct (writers_ st). Qed.

Lemma signal_front_signals (st : State) :
  signals (signal_front st) =
    signals st ++ match writers_ st with [] => [] | h :: _ => [h] end.
Proof. unfold signal_front. destruct (writers_ st); simpl; [by rewrite app_nil_r|done]. Qed.

(** The loop of [StartParallelRun] appends to [parallel_writers_], starting
    with the head of [writers_]. *)
Lemma start_loop_pw (w lw : ptr) (q : list ptr) :
  forall pid pw h sg q' pw' h' sg',
  start_loop w lw pid q pw h sg = Some (q', pw', h', sg') ->
  exists l, pw' = pw ++ l /\ head l = head q.
Proof.
  induction q as [|p q IH]; intros pid pw h sg q' pw' h' sg' H; simpl in H.
  - injection H as _ <- _ _. exists []. by rewrite app_nil_r.
  - destruct (batch _) as [b|]; [|discriminate].
    destruct (negb (Nat.eqb p lw)).
    + apply IH in H as (l & -> & _). exists (p :: l). by rewrite <- app_assoc.
    + injection H as _ <- _ _. by exists [p].
Qed.

(** [n] reports wake the waiting leader with the counter at 0. *)
Lemma leader_wait_reports (k : nat) :
  forall st m, unfinished_threads_ st = Z.of_nat k -> (Z.of_nat k < two32)%Z ->
  k <= m ->
  LeaderWaitEndParallel (repeat (fun s => snd (ReportParallelRunFinish s)) m) st
    = Some (set_unfinished st 0).
Proof.
  induction k as [|k IH]; intros st m Hu Hlt Hm.
  - destruct m as [|m]; simpl; rewrite Hu; simpl;
      destruct st; simpl in *; subst; reflexivity.
  - destruct m as [|m]; [lia|]. simpl.
    assert (Hne : (unfinished_threads_ st =? 0)%Z = false) by (apply Z.eqb_neq; lia).
    rewrite Hne. simpl. rewrite IH.
    + by destruct st.
    + simpl. rewrite Hu, Z.mod_small; lia.
    + lia.
    + lia.
Qed.

Lemma map_upd_cfds_filter (c : CfdSets) (self : ptr) (X : gset nat) (l : list ptr) :
  map (upd_cfds c self X) (List.filter (fun p => negb (Nat.eqb p self)) l)
  = map c (List.filter (fun p => negb (Nat.eqb p self)) l).
Proof.
  induction l as [|p l IH]; simpl; [done|].
  destruct (Nat.eqb p self) eqn:E; simpl; [done|].
  rewrite IH. unfold upd_cfds. by rewrite E.
Qed.

(** The tagging loop of [LeaderEndParallel]. *)
Lemma end_loop_char (self : ptr) (pws : list ptr) :
  forall h c ss,
  let '(h', c', ss') := end_loop self pws h c ss in
  ss' = ss ++ List.filter (fun p => negb (Nat.eqb p self)) pws /\
  (forall p, h' p = if existsb (Nat.eqb p) pws && negb (Nat.eqb p self)
                    then set_done (h p) else h p) /\
  c' self = c self ∪ ⋃ (map c (List.filter (fun p => negb (Nat.eqb p self)) pws)) /\
  (forall q, q <> self -> c' q = c q).
Proof.
  induction pws as [|p pws IH]; intros h c ss.
  - simpl. rewrite app_nil_r. split; [done|]. split; [done|].
    split; [set_solver|done].
  - simpl. destruct (Nat.eqb p self) eqn:E; simpl.
    + specialize (IH h c ss).
      destruct (end_loop self pws h c ss) as [[h' c'] ss'].
      destruct IH as (Hs & Hh & Hc & Ho).
      split; [done|]. split; [|done].
      intros q. rewrite Hh. destruct (Nat.eqb q p) eqn:Eq; simpl; [|done].
      apply Nat.eqb_eq in Eq. subst q. rewrite E. simpl. by rewrite andb_false_r.
    + set (h1 := upd h p (set_done (h p))).
      set (c1 := upd_cfds c self (c self ∪ c p)).
      specialize (IH h1 c1 (ss ++ [p])).
      destruct (end_loop self pws h1 c1 (ss ++ [p])) as [[h' c'] ss'].
      destruct IH as (Hs & Hh & Hc & Ho).
      split; [by rewrite Hs, <- app_assoc|]. split; [|split].
      * intros q. rewrite Hh. unfold h1, upd.
        destruct (Nat.eqb q p) eqn:Eq; simpl.
        -- apply Nat.eqb_eq in Eq. subst q. rewrite E. simpl.
           destruct (existsb (Nat.eqb p) pws); simpl; by rewrite ?set_done_idem.
        -- done.
      * rewrite Hc. unfold c1. rewrite map_upd_cfds_filter.
        unfold upd_cfds. rewrite Nat.eqb_refl. simpl. set_solver.
      * intros q Hq. rewrite Ho by done. unfold c1, upd_cfds.
        apply Nat.eqb_neq in Hq. by rewrite Hq.
Qed.

Lemma back_last (l : list ptr) (x : ptr) : back (l ++ [x]) = Some x.
Proof. unfold back. rewrite map_app. apply List.last_last. Qed.

(** *** Entering the write thread *)

(** A writer entering an empty queue is its head at once:
    [EnterWriteThread] returns [OK] without waiting, whatever its deadline
    and the wake-ups, with [writers_ = [w]], no signal sent and nothing
    else changed. *)
Theorem enter_write_thread_empty_queue (w : ptr) (expiration_time : nat)
    (tr : list WaitEvent) (st : State) :
  writers_ st = [] ->
  EnterWriteThread w expiration_time tr st = Some (OK, set_writers st [w], []).
Proof.
  intros Hq. unfold EnterWriteThread. rewrite Hq.
  change ([] ++ [w]) with [w].
  assert (Hc : wait_cond (set_writers st [w]) w = false).
  { unfold wait_cond. simpl. rewrite Nat.eqb_refl. by rewrite andb_false_r. }
  destruct tr; unfold enter_loop; rewrite Hc; simpl;
    by destruct (_ && _).
Qed.

Lemma enter_write_thread_empty_queue_witness :
  writers_ (sample_state [] []) = [] /\
  EnterWriteThread 1 0 s4_trace (sample_state [] []) =
    Some (OK, set_writers (sample_state [] []) [1], []).
Proof.
  split; [reflexivity|].
  apply enter_write_thread_empty_queue. reflexivity.
Defined.

(** [EnterWriteThread] returns [OK] only when the writer's job was done by
    a leader, when it was given a parallel execution id, or when it is the
    head of [writers_] (the new leader). *)
Theorem enter_write_thread_ok_cases (w : ptr) (expiration_time : nat)
    (tr : list WaitEvent) (st st' : State) (log : list LoopStep) :
  EnterWriteThread w expiration_time tr st = Some (OK, st', log) ->
  done (heap st' w) = true \/ (0 < parallel_execute_id (heap st' w))%Z \/
  head (writers_ st') = Some w.
Proof.
  intros H. unfold EnterWriteThread in H.
  destruct (enter_loop w expiration_time tr (set_writers st (writers_ st ++ [w])))
    as [[[[st1 t] e1] l1]|] eqn:E; [|discriminate].
  destruct (negb (done (heap st1 w)) && (0 <? parallel_execute_id (heap st1 w))%Z)
    eqn:Hp.
  - injection H as <- _. right. left.
    apply andb_true_iff in Hp as [_ Hp]. by apply Z.ltb_lt.
  - destruct t.
    + destruct (existsb (Nat.eqb w) (writers_ st1)); discriminate.
    + injection H as <- _. apply enter_loop_exit in E. unfold wait_cond in E.
      destruct (done (heap st1 w)); [by left|].
      destruct (parallel_execute_id (heap st1 w) <=? 0)%Z eqn:Hz; simpl in E.
      * right. right. unfold is_front in E.
        destruct (writers_ st1) as [|h q]; [discriminate|].
        destruct (Nat.eqb h w) eqn:Eh; [|discriminate].
        apply Nat.eqb_eq in Eh. by subst.
      * right. left. apply Z.leb_gt in Hz. done.
Qed.

Lemma enter_write_thread_ok_cases_witness :
  match EnterWriteThread 2 5 s4_trace s4_start with
  | Some (OK, st', log) =>
      done (heap st' 2) = true \/ Z.lt 0 (parallel_execute_id (heap st' 2)) \/
      head (writers_ st') = Some 2
  | _ => False
  end.
Proof.
  destruct (EnterWriteThread 2 5 s4_trace s4_start) as [[[s st'] log]|] eqn:E;
    [|vm_compute in E; discriminate].
  destruct s; try (vm_compute in E; discriminate).
  exact (enter_write_thread_ok_cases 2 5 s4_trace s4_start st' log E).
Defined.

(** *** The leader's batch group *)

(** [BuildBatchGroup] changes nothing but the [in_batch_group] flag of
    the [k] writers it merges behind the initiator ([k + 1] batches in
    the group, the last of them [*last_writer]); the initiator, queued
    once, keeps its own flag. *)
Theorem build_batch_group_marks (st st1 : State) (fp : ptr) (rest : list ptr)
    (size : N) (last : ptr) (group : list WriteBatch) :
  writers_ st = fp :: rest -> ~ In fp rest ->
  BuildBatchGroup st = Some (st1, size, last, group) ->
  exists k, length group = S k /\ last = List.last (take k rest) fp /\
    writers_ st1 = writers_ st /\ parallel_writers_ st1 = parallel_writers_ st /\
    unfinished_threads_ st1 = unfinished_threads_ st /\ signals st1 = signals st /\
    (forall p, In p (take k rest) ->
       in_batch_group (heap st1 p) = true /\
       heap st1 p = set_in_batch_group (heap st p)) /\
    (forall p, ~ In p (take k rest) -> heap st1 p = heap st p) /\
    heap st1 fp = heap st fp.
Proof.
  intros Hq Hfp H.
  destruct (build_batch_group_take st st1 fp rest size last group Hq H)
    as (k & _ & Hg & Hl & Hw & Hpw & Hu & Hs & Hh).
  exists k. repeat (split; [done|]). split; [|split].
  - intros p Hp. rewrite Hh. apply existsb_eqb_In in Hp. rewrite Hp.
    by destruct (heap st p).
  - intros p Hp. rewrite Hh. by rewrite existsb_eqb_notIn.
  - rewrite Hh, existsb_eqb_notIn; [done|].
    intros Hin. apply Hfp. rewrite <- (take_drop k rest). apply in_or_app. by left.
Qed.

Lemma build_batch_group_marks_witness :
  match BuildBatchGroup s2_state with
  | Some (st1, size, last, group) =>
      exists k, length group = S k /\ last = List.last (take k [2; 3; 4]) 1 /\
        writers_ st1 = writers_ s2_state /\
        parallel_writers_ st1 = parallel_writers_ s2_state /\
        unfinished_threads_ st1 = unfinished_threads_ s2_state /\
        signals st1 = signals s2_state /\
        (forall p, In p (take k [2; 3; 4]) ->
           in_batch_group (heap st1 p) = true /\
           heap st1 p = set_in_batch_group (heap s2_state p)) /\
        (forall p, ~ In p (take k [2; 3; 4]) -> heap st1 p = heap s2_state p) /\
        heap st1 1 = heap s2_state 1
  | None => False
  end.
Proof.
  destruct (BuildBatchGroup s2_state) as [[[[st1 size] last] group]|] eqn:E;
    [|vm_compute in E; discriminate].
  apply (build_batch_group_marks s2_state st1 1 [2; 3; 4] size last group).
  - reflexivity.
  - simpl. intros [H|[H|[H|[]]]]; discriminate.
  - exact E.
Defined.

(** The pop loop of [ExitWriteThread] over a queue [g ++ post] whose
    prefix [g] holds each writer once and ends with [last_writer]. *)
Lemma exit_loop_group (w : ptr) (s : Status) (g post : list ptr) (d : ptr)
    (h : ptr -> Writer) (sg : list ptr) :
  g <> [] -> NoDup g ->
  exists h',
    exit_loop w (List.last g d) s (g ++ post) h sg =
      (post, h', sg ++ List.filter (fun p => negb (Nat.eqb p w)) g) /\
    (forall p, h' p = if existsb (Nat.eqb p) g
                      then (if Nat.eqb p w then h p else set_done_status (h p) s)
                      else h p).
Proof.
  intros Hne Hnd.
  destruct (exists_last Hne) as (pre & lw & ->).
  rewrite List.last_last.
  assert (Hlw : ~ In lw pre).
  { intros Hin. apply NoDup_app in Hnd as (_ & Hx & _).
    apply (Hx lw); [by apply list_elem_of_In|]. by left. }
  destruct (exit_loop_char w lw s post pre h sg Hlw) as (h' & Hrun & _ & _).
  exists h'. rewrite <- app_assoc. simpl. split; [done|].
  intros p. pose proof (exit_loop_heap w lw s post pre h sg p Hlw) as Hp.
  rewrite Hrun in Hp. exact Hp.
Qed.

(** A leader's commit: [BuildBatchGroup] followed by
    [ExitWriteThread(leader, last_writer, status)], on a queue holding
    each writer once, removes exactly the group from [writers_]; the [k]
    merged writers are done with [status] (and flagged in the group), the
    leader and every other writer are as they were, and the signals go to
    the merged writers in queue order, then to the new head. *)
Theorem build_batch_group_then_exit (st st1 : State) (fp : ptr) (rest : list ptr)
    (size : N) (last : ptr) (group : list WriteBatch) (s : Status) :
  writers_ st = fp :: rest -> NoDup (fp :: rest) ->
  BuildBatchGroup st = Some (st1, size, last, group) ->
  let st2 := ExitWriteThread fp last s st1 in
  exists k, length group = S k /\
    writers_ st2 = drop k rest /\
    (forall p, In p (take k rest) ->
       done (heap st2 p) = true /\ status (heap st2 p) = s /\
       in_batch_group (heap st2 p) = true) /\
    (forall p, ~ In p (take k rest) -> heap st2 p = heap st p) /\
    signals st2 = signals st ++ take k rest ++
                  match drop k rest with [] => [] | h :: _ => [h] end.
Proof.
  intros Hq Hnd H st2.
  destruct (build_batch_group_take st st1 fp rest size last group Hq H)
    as (k & _ & Hg & Hl & Hw & _ & _ & Hs & Hh).
  exists k. split; [done|].
  assert (Hndg : NoDup (fp :: take k rest)).
  { apply (sublist_NoDup _ (fp :: rest)); [done|].
    apply sublist_skip, sublist_take. }
  assert (Hfp : ~ In fp (take k rest)).
  { apply NoDup_cons in Hndg as [Hn _]. intros Hin. apply Hn.
    by apply list_elem_of_In. }
  assert (Hq1 : writers_ st1 = (fp :: take k rest) ++ drop k rest).
  { rewrite Hw, Hq. simpl. by rewrite take_drop. }
  assert (Hl1 : last = List.last (fp :: take k rest) fp).
  { by rewrite last_cons_default. }
  destruct (exit_loop_group fp s (fp :: take k rest) (drop k rest) fp
              (heap st1) (signals st1) ltac:(done) Hndg) as (h' & Hrun & Hh').
  rewrite <- Hl1 in Hrun.
  assert (Hst2 : st2 = signal_front (mkState (drop k rest) (parallel_writers_ st1)
                   (unfinished_threads_ st1) h'
                   (signals st1 ++ List.filter (fun p => negb (Nat.eqb p fp))
                                    (fp :: take k rest)))).
  { unfold st2, ExitWriteThread. by rewrite Hq1, Hrun. }
  assert (Hf : List.filter (fun p => negb (Nat.eqb p fp)) (fp :: take k rest)
               = take k rest).
  { simpl. rewrite Nat.eqb_refl. simpl. by apply filter_neq_notin. }
  rewrite Hf in Hst2. rewrite Hst2.
  rewrite signal_front_writers, signal_front_heap, signal_front_signals. simpl.
  split; [done|]. split; [|split].
  - intros p Hp. rewrite Hh'. simpl.
    assert (Hpf : Nat.eqb p fp = false)
      by (apply Nat.eqb_neq; intros ->; done).
    apply existsb_eqb_In in Hp as Hp'. rewrite Hpf, Hp'. simpl.
    rewrite Hh, Hp'. by destruct (heap st p).
  - intros p Hp. rewrite Hh'. simpl.
    rewrite (existsb_eqb_notIn p (take k rest) Hp), orb_false_r.
    destruct (Nat.eqb p fp) eqn:Epf.
    + apply Nat.eqb_eq in Epf. subst p. rewrite Hh.
      by rewrite existsb_eqb_notIn.
    + rewrite Hh. by rewrite existsb_eqb_notIn.
  - by rewrite Hs, app_assoc.
Qed.

Lemma build_batch_group_then_exit_witness :
  match BuildBatchGroup s2_state with
  | Some (st1, size, last, group) =>
      let st2 := ExitWriteThread 1 last OK st1 in
      exists k, length group = S k /\
        writers_ st2 = drop k [2; 3; 4] /\
        (forall p, In p (take k [2; 3; 4]) ->
           done (heap st2 p) = true /\ status (heap st2 p) = OK /\
           in_batch_group (heap st2 p) = true) /\
        (forall p, ~ In p (take k [2; 3; 4]) -> heap st2 p = heap s2_state p) /\
        signals st2 = signals s2_state ++ take k [2; 3; 4] ++
                      match drop k [2; 3; 4] with [] => [] | h :: _ => [h] end
  | None => False
  end.
Proof.
  destruct (BuildBatchGroup s2_state) as [[[[st1 size] last] group]|] eqn:E;
    [|vm_compute in E; discriminate].
  apply (build_batch_group_then_exit s2_state st1 1 [2; 3; 4] size last group OK).
  - reflexivity.
  - apply (bool_decide_unpack _). vm_compute. reflexivity.
  - exact E.
Defined.

(** When [last_writer] is not in [writers_], [ExitWriteThread] empties the
    queue: every writer other than [w] is marked done with [status] and
    signaled, in queue order, and no head is left to signal. *)
Theorem exit_write_thread_last_absent (w last_writer : ptr) (s : Status)
    (st : State) :
  ~ In last_writer (writers_ st) ->
  let st' := ExitWriteThread w last_writer s st in
  writers_ st' = [] /\
  signals st' = signals st ++ List.filter (fun p => negb (Nat.eqb p w)) (writers_ st) /\
  (forall p, In p (writers_ st) -> p <> w ->
     done (heap st' p) = true /\ status (heap st' p) = s) /\
  (forall p, ~ In p (writers_ st) \/ p = w -> heap st' p = heap st p).
Proof.
  intros Hlw st'.
  destruct (exit_loop_absent w last_writer s (writers_ st) (heap st) (signals st) Hlw)
    as (h' & Hrun & Hh).
  assert (Hst : st' = mkState [] (parallel_writers_ st) (unfinished_threads_ st) h'
                  (signals st ++ List.filter (fun p => negb (Nat.eqb p w)) (writers_ st))).
  { unfold st', ExitWriteThread. by rewrite Hrun. }
  rewrite Hst. simpl. split; [done|]. split; [done|]. split.
  - intros p Hp Hpw. rewrite Hh. apply existsb_eqb_In in Hp. rewrite Hp.
    apply Nat.eqb_neq in Hpw. rewrite Hpw. by destruct (heap st p).
  - intros p [Hp | ->]; rewrite Hh.
    + by rewrite existsb_eqb_notIn.
    + rewrite Nat.eqb_refl. by destruct (existsb _ _).
Qed.

Lemma exit_write_thread_last_absent_witness :
  let st' := ExitWriteThread 1 9 OK s2_state in
  writers_ st' = [] /\
  signals st' = signals s2_state ++
                List.filter (fun p => negb (Nat.eqb p 1)) (writers_ s2_state) /\
  (forall p, In p (writers_ s2_state) -> p <> 1 ->
     done (heap st' p) = true /\ status (heap st' p) = OK) /\
  (forall p, ~ In p (writers_ s2_state) \/ p = 1 -> heap st' p = heap s2_state p).
Proof.
  apply (exit_write_thread_last_absent 1 9 OK s2_state).
  simpl. intros [H|[H|[H|[H|[]]]]]; discriminate.
Defined.

(** *** The end of a parallel run *)

(** A whole parallel run, from the state C5 starts from (the leader [w]
    at the head, the group [pre ++ [last_writer]] queued once with
    non-null batches, [num_threads] its size): [StartParallelRun], then
    the leader's [LeaderWaitEndParallel] while the [num_threads]
    [ReportParallelRunFinish] calls happen, then [LeaderEndParallel].
    Every step completes; the group is gone from [writers_] and
    [parallel_writers_] is empty; every member other than the leader is
    done, its [self_cv] signaled, and its column families merged into the
    leader's, of which those needing a flush are scheduled; writers
    outside the group are as they were; the new head, if any, is
    signaled; and a member's [EndParallelRun] then returns at once,
    signaling nobody. *)
Theorem parallel_run_end (should_flush : nat -> bool) (w last_writer : ptr)
    (num_threads : nat) (pre post : list ptr) (st : State) (c : CfdSets) :
  unfinished_threads_ st = 0%Z ->
  parallel_writers_ st = [] ->
  writers_ st = pre ++ last_writer :: post ->
  head (pre ++ [last_writer]) = Some w ->
  ~ In last_writer pre ->
  NoDup (pre ++ [last_writer]) ->
  Forall (fun p => batch (heap st p) <> None) (pre ++ [last_writer]) ->
  num_threads = length (pre ++ [last_writer]) ->
  (Z.of_nat num_threads < two32)%Z ->
  exists st1 st2 st3 c' ss flushes,
    StartParallelRun w num_threads last_writer st = Some st1 /\
    LeaderWaitEndParallel
      (repeat (fun s => snd (ReportParallelRunFinish s)) num_threads) st1 = Some st2 /\
    LeaderEndParallel should_flush w last_writer st2 c = Some (st3, c', ss, flushes) /\
    writers_ st3 = post /\ parallel_writers_ st3 = [] /\
    unfinished_threads_ st3 = 0%Z /\
    (forall p, In p (pre ++ [last_writer]) -> p <> w -> done (heap st3 p) = true) /\
    (forall p, ~ In p (pre ++ [last_writer]) -> heap st3 p = heap st p) /\
    ss = List.filter (fun p => negb (Nat.eqb p w)) (pre ++ [last_writer]) /\
    c' w = c w ∪ ⋃ (map c (List.filter (fun p => negb (Nat.eqb p w))
                              (pre ++ [last_writer]))) /\
    flushes = filter (fun cfd => should_flush cfd = true) (c' w) /\
    signals st3 = signals st1 ++ match post with [] => [] | h :: _ => [h] end /\
    (forall p b, In p (pre ++ [last_writer]) -> p <> w ->
       EndParallelRun p b [] st3 = Some st3).
Proof.
  intros Hu Hpw Hq Hhd Hlw Hnd Hb Hn Hlt. subst num_threads.
  destruct (start_loop_char w last_writer post pre 1 [] (heap st) (signals st)
              Hlw Hnd Hb) as (h1 & sg1 & Hrun & Hout & _).
  set (st1 := mkState (last_writer :: post) (pre ++ [last_writer])
                (Z.of_nat (length (pre ++ [last_writer])) mod two32) h1 sg1).
  assert (Hst1 : StartParallelRun w (length (pre ++ [last_writer])) last_writer st = Some st1).
  { unfold StartParallelRun, start_parallel_run_body.
    rewrite Hu, Hq, Hpw, Hrun. simpl. rewrite Nat.eqb_refl. done. }
  assert (Hst2 : LeaderWaitEndParallel
                   (repeat (fun s => snd (ReportParallelRunFinish s)) (length (pre ++ [last_writer]))) st1
                 = Some (set_unfinished st1 0)).
  { apply (leader_wait_reports (length (pre ++ [last_writer]))); [|done|lia].
    simpl. rewrite Z.mod_small; lia. }
  pose proof (end_loop_char w (pre ++ [last_writer]) h1 c []) as He.
  destruct (end_loop w (pre ++ [last_writer]) h1 c []) as [[h3 c3] ss3] eqn:Ee.
  destruct He as (Hss & Hh3 & Hc3 & _).
  set (st3 := signal_front (mkState post [] 0 h3 sg1)).
  assert (Hst3 : LeaderEndParallel should_flush w last_writer (set_unfinished st1 0) c
                 = Some (st3, c3, ss3, filter (fun cfd => should_flush cfd = true) (c3 w))).
  { unfold LeaderEndParallel. simpl. rewrite Ee, back_last, Nat.eqb_refl. done. }
  exists st1, (set_unfinished st1 0), st3, c3, ss3,
    (filter (fun cfd => should_flush cfd = true) (c3 w)).
  split; [done|]. split; [done|]. split; [done|].
  unfold st3. rewrite signal_front_writers, signal_front_parallel,
    signal_front_unfinished, signal_front_heap, signal_front_signals. simpl.
  split; [done|]. split; [done|]. split; [done|].
  split; [|split; [|split; [|split; [|split; [|split]]]]].
  - intros p Hp Hpw'. rewrite Hh3. apply existsb_eqb_In in Hp. rewrite Hp.
    apply Nat.eqb_neq in Hpw'. rewrite Hpw'. simpl. by destruct (h1 p).
  - intros p Hp. rewrite Hh3, existsb_eqb_notIn by done. simpl. by apply Hout.
  - by rewrite Hss.
  - done.
  - done.
  - done.
  - intros p b Hp Hpw'. unfold EndParallelRun.
    assert (Hd : done (heap (signal_front (mkState post [] 0 h3 sg1)) p) = true).
    { rewrite signal_front_heap. simpl. rewrite Hh3.
      apply existsb_eqb_In in Hp. rewrite Hp.
      apply Nat.eqb_neq in Hpw'. rewrite Hpw'. simpl. by destruct (h1 p). }
    destruct b; [rewrite signal_front_parallel|]; simpl;
      unfold wait_done; by rewrite Hd.
Qed.

Lemma parallel_run_end_witness :
  exists st1 st2 st3 c' ss flushes,
    StartParallelRun 1 3 3 s6_state = Some st1 /\
    LeaderWaitEndParallel (repeat (fun s => snd (ReportParallelRunFinish s)) 3) st1
      = Some st2 /\
    LeaderEndParallel (fun cfd => Nat.eqb cfd 7) 1 3 st2
      (fun p => {[ p + 5 ]}) = Some (st3, c', ss, flushes) /\
    writers_ st3 = [4] /\ parallel_writers_ st3 = [] /\
    unfinished_threads_ st3 = 0%Z /\
    (forall p, In p ([1; 2] ++ [3]) -> p <> 1 -> done (heap st3 p) = true) /\
    (forall p, ~ In p ([1; 2] ++ [3]) -> heap st3 p = heap s6_state p) /\
    ss = List.filter (fun p => negb (Nat.eqb p 1)) ([1; 2] ++ [3]) /\
    c' 1 = (fun p => {[ p + 5 ]} : gset nat) 1 ∪
           ⋃ (map (fun p => {[ p + 5 ]}) (List.filter (fun p => negb (Nat.eqb p 1))
                                           ([1; 2] ++ [3]))) /\
    flushes = filter (fun cfd => Nat.eqb cfd 7 = true) (c' 1) /\
    signals st3 = signals st1 ++ match [4] with [] => [] | h :: _ => [h] end /\
    (forall p b, In p ([1; 2] ++ [3]) -> p <> 1 ->
       EndParallelRun p b [] st3 = Some st3).
Proof.
  apply (parallel_run_end (fun cfd => Nat.eqb cfd 7) 1 3 3 [1; 2] [4] s6_state
           (fun p => {[ p + 5 ]})).
  - reflexivity.
  - reflexivity.
  - reflexivity.
  - reflexivity.
  - simpl. intros [H|[H|[]]]; discriminate.
  - apply (bool_decide_unpack _). vm_compute. reflexivity.
  - repeat constructor; vm_compute; discriminate.
  - reflexivity.
  - vm_compute. reflexivity.
Defined.

(** While a parallel run is in progress, [parallel_writers_] starts with
    the leader that started it from the head of [writers_]: a member's
    [EndParallelRun] with [need_wake_up_leader] signals that leader, then
    waits for its own [done]. *)
Theorem end_parallel_run_wakes_leader (w last_writer : ptr) (num_threads : nat)
    (st st1 : State) :
  parallel_writers_ st = [] ->
  head (writers_ st) = Some w ->
  StartParallelRun w num_threads last_writer st = Some st1 ->
  head (parallel_writers_ st1) = Some w /\
  (forall p tr, EndParallelRun p true tr st1 = wait_done p tr (signal st1 w)).
Proof.
  intros Hpw Hhd H.
  unfold StartParallelRun, start_parallel_run_body in H.
  destruct (negb (unfinished_threads_ st =? 0)%Z); [discriminate|].
  destruct (start_loop w last_writer 1 (writers_ st) (parallel_writers_ st)
              (heap st) (signals st)) as [[[[q pw] h] sg]|] eqn:E; [|discriminate].
  destruct (Nat.eqb num_threads (length (parallel_writers_ _))); [|discriminate].
  injection H as <-.
  apply start_loop_pw in E as (l & Hl & Hh). rewrite Hpw in Hl. simpl in Hl.
  subst pw. simpl. rewrite Hh, Hhd.
  assert (Hpw1 : head l = Some w) by (by rewrite Hh).
  split; [done|].
  intros p tr. unfold EndParallelRun. simpl.
  destruct l as [|x l]; [discriminate|]. simpl in Hpw1. injection Hpw1 as ->. done.
Qed.

Lemma end_parallel_run_wakes_leader_witness :
  match StartParallelRun 1 3 3 s6_state with
  | Some st1 =>
      head (parallel_writers_ st1) = Some 1 /\
      (forall p tr, EndParallelRun p true tr st1 = wait_done p tr (signal st1 1))
  | None => False
  end.
Proof.
  destruct (StartParallelRun 1 3 3 s6_state) as [st1|] eqn:E;
    [|vm_compute in E; discriminate].
  exact (end_parallel_run_wakes_leader 1 3 3 s6_state st1 eq_refl eq_refl E).
Defined.

End WriteThreadSpec.

Module EnvNVMSpec.
Import EnvNVM.

Example sample_rename_into_nvm :
  fst (sample_RenameFile sample_env "x.log" "b.sst") = OK.
Proof. vm_compute. reflexivity. Qed.

Example sample_rename_out_of_nvm :
  let '(s, st) := sample_RenameFile sample_env "a.sst" "y.log" in
  s = OK /\ fs_ st !! "db" = Some [mkNvmFile 1 "y.log"; mkNvmFile 2 "c.sst"].
Proof. vm_compute. auto. Qed.

Example sample_rename_over_existing :
  let '(s, st) := sample_RenameFile sample_env "a.sst" "c.sst" in
  s = OK /\ fs_ st !! "db" = Some [mkNvmFile 1 "c.sst"].
Proof. vm_compute. auto. Qed.

Example sample_delete_posix :
  sample_DeleteFile sample_env "x.log" = (OK, sample_env).
Proof. vm_compute. reflexivity. Qed.

Section Props.
Context `{PE : PosixEnv} `{FP : FPathInfo} `{NM : @NvmFileFromMeta PE}.

Lemma find_none_erase_named (n : string) (files : list NvmFile) :
  List.find (fun f => IsNamed f n) files = None -> erase_named n files = None.
Proof.
  induction files as [|f files IH]; simpl; [done|].
  destruct (IsNamed f n); [discriminate|]. intros H. by rewrite IH.
Qed.

(** ** Claim C1 *)

(** C1 (code bug). The boundary test of [RenameFile] compares
    [info_src.nvm_managed()] with itself, so it never fires: renaming an
    unmanaged source to an NVM-managed target is handed to the posix
    [Env], with its result returned, instead of failing with an IO
    error. *)
Theorem rename_file_cross_boundary_delegated (st : EnvState)
    (fpath_src fpath_tgt : string) :
  nvm_managed fpath_src = false ->
  nvm_managed fpath_tgt = true ->
  RenameFile st fpath_src fpath_tgt =
    (fst (posix_RenameFile (posix st) fpath_src fpath_tgt),
     mkEnvState (snd (posix_RenameFile (posix st) fpath_src fpath_tgt)) (fs_ st)).
Proof.
  intros Hs _. unfold RenameFile. rewrite Hs. simpl.
  by destruct (posix_RenameFile (posix st) fpath_src fpath_tgt).
Qed.

(** ** Claim C9 *)

(** C9. For a path that is not NVM-managed, [DeleteFile] deletes nothing:
    it returns the posix [FileExists] result for the path and leaves the
    state (posix file system and NVM table) unchanged. *)
Theorem delete_file_unmanaged_is_file_exists (st : EnvState) (fpath : string) :
  nvm_managed fpath = false ->
  DeleteFile st fpath = (posix_FileExists (posix st) fpath, st).
Proof. intros H. unfold DeleteFile. by rewrite H. Qed.

(** ** Claim C10 *)


End Props.

Lemma rename_file_cross_boundary_delegated_witness :
  @nvm_managed sample_fpath "x.log" = false /\
  @nvm_managed sample_fpath "b.sst" = true /\
  sample_RenameFile sample_env "x.log" "b.sst" =
    (fst (@posix_RenameFile sample_posix (posix sample_env) "x.log" "b.sst"),
     mkEnvState (snd (@posix_RenameFile sample_posix (posix sample_env) "x.log" "b.sst"))
       (fs_ sample_env)) /\
  fst (@posix_RenameFile sample_posix (posix sample_env) "x.log" "b.sst") = OK.
Proof.
  assert (Hs : @nvm_managed sample_fpath "x.log" = false) by reflexivity.
  assert (Ht : @nvm_managed sample_fpath "b.sst" = true) by reflexivity.
  split; [exact Hs|]. split; [exact Ht|]. split.
  - exact (@rename_file_cross_boundary_delegated sample_posix sample_fpath sample_meta
             sample_env "x.log" "b.sst" Hs Ht).
  - reflexivity.
Defined.

Lemma delete_file_unmanaged_is_file_exists_witness :
  @nvm_managed sample_fpath "x.log" = false /\
  sample_DeleteFile sample_env "x.log" =
    (@posix_FileExists sample_posix (posix sample_env) "x.log", sample_env).
Proof.
  assert (H : @nvm_managed sample_fpath "x.log" = false) by reflexivity.
  split; [exact H|].
  exact (@delete_file_unmanaged_is_file_exists sample_posix sample_fpath
           sample_env "x.log" H).
Defined.



(** ** Further properties of [EnvNVM] *)

(** *** The constructor *)

Lemma string_find_from_eq (n h : string) (i : nat) :
  string_find_from n h i =
    if String.prefix n h then Some i
    else match h with
         | EmptyString => None
         | String _ h' => string_find_from n h' (S i)
         end.
Proof. by destruct h. Qed.

Lemma string_find_from_ge (n h : string) :
  forall i j, string_find_from n h i = Some j -> i <= j.
Proof.
  induction h as [|a h IH]; intros i j H; rewrite string_find_from_eq in H;
    destruct (String.prefix n _).
  - injection H. lia.
  - discriminate.
  - injection H. lia.
  - apply IH in H. lia.
Qed.

Lemma string_find_from_here (n h : string) (i : nat) :
  string_find_from n h i = Some i -> String.prefix n h = true.
Proof.
  rewrite string_find_from_eq. destruct (String.prefix n h); [done|].
  destruct h as [|a h]; [discriminate|].
  intros H. apply string_find_from_ge in H. lia.
Qed.

Lemma substring_0_full (s : string) : String.substring 0 (String.length s) s = s.
Proof. induction s as [|a s IH]; simpl; [done|]. by rewrite IH. Qed.

Lemma prefix_split (s1 s2 : string) :
  String.prefix s1 s2 = true ->
  s2 = String.append s1
         (String.substring (String.length s1) (String.length s2 - String.length s1) s2).
Proof.
  revert s2. induction s1 as [|a s1 IH]; intros s2 H.
  - simpl. rewrite Nat.sub_0_r. by rewrite substring_0_full.
  - destruct s2 as [|b s2]; simpl in H; [discriminate|].
    destruct (Ascii.ascii_dec a b) as [<-|]; [|discriminate].
    simpl. exact (f_equal (String a) (IH s2 H)).
Qed.

Lemma prefix_app (s d : string) : String.prefix s (String.append s d) = true.
Proof.
  induction s as [|a s IH]; simpl; [by destruct d|].
  destruct (Ascii.ascii_dec a a); [exact IH|done].
Qed.

Lemma substring_app (s d : string) :
  String.substring (String.length s)
    (String.length (String.append s d) - String.length s) (String.append s d) = d.
Proof.
  induction s as [|a s IH]; simpl.
  - rewrite Nat.sub_0_r. apply substring_0_full.
  - exact IH.
Qed.

(** [EnvNVM(uri)] succeeds exactly on the URIs that start with
    ["nvm://"], and its [dev_name_] is the rest of the URI: a URI holding
    ["nvm://"] anywhere else is refused. *)
Theorem env_nvm_dev_name_spec (uri d : string) :
  EnvNVM_dev_name uri = Some d <-> uri = String.append "nvm://"%string d.
Proof.
  unfold EnvNVM_dev_name, string_find. split.
  - destruct (string_find_from "nvm://" uri 0) as [[|j]|] eqn:E; try discriminate.
    intros H. injection H as <-.
    apply string_find_from_here in E. exact (prefix_split _ _ E).
  - intros ->.
    assert (E : string_find_from "nvm://" (String.append "nvm://" d) 0 = Some 0)
      by (rewrite string_find_from_eq, prefix_app; done).
    rewrite E. exact (f_equal Some (substring_app "nvm://" d)).
Qed.

Example env_nvm_dev_name_samples :
  EnvNVM_dev_name "nvm://nvme0n1" = Some "nvme0n1"%string /\
  EnvNVM_dev_name "x-nvm://nvme0n1" = None /\
  EnvNVM_dev_name "nvm:/" = None.
Proof. vm_compute. auto. Qed.

(** *** File lookup and the file table *)

Section Props2.
Context `{PE : PosixEnv} `{FP : FPathInfo} `{NM : @NvmFileFromMeta PE}.
Context `{PM : @PosixEnvMore PE} `{NO : @NvmFileOps PE}.

Lemma find_named_split (n : string) (pre post : list NvmFile) (f : NvmFile) :
  Forall (fun g => IsNamed g n = false) pre -> IsNamed f n = true ->
  List.find (fun g => IsNamed g n) (pre ++ f :: post) = Some f.
Proof.
  induction 1 as [|g pre Hg Hpre IH]; intros Hf; simpl; [by rewrite Hf|].
  rewrite Hg. by apply IH.
Qed.

Lemma erase_named_split (n : string) (pre post : list NvmFile) (f : NvmFile) :
  Forall (fun g => IsNamed g n = false) pre -> IsNamed f n = true ->
  erase_named n (pre ++ f :: post) = Some (pre ++ post).
Proof.
  induction 1 as [|g pre Hg Hpre IH]; intros Hf; simpl; [by rewrite Hf|].
  rewrite Hg, IH by done. done.
Qed.

Lemma erase_named_none (n : string) (files : list NvmFile) :
  Forall (fun g => IsNamed g n = false) files -> erase_named n files = None.
Proof. induction 1 as [|g l Hg _ IH]; simpl; [done|]. by rewrite Hg, IH. Qed.

Lemma erase_named_some (n : string) (files files' : list NvmFile) :
  erase_named n files = Some files' ->
  exists pre f post, files = pre ++ f :: post /\ files' = pre ++ post /\
    IsNamed f n = true /\ Forall (fun g => IsNamed g n = false) pre.
Proof.
  revert files'. induction files as [|g files IH]; intros files' H; simpl in H;
    [discriminate|].
  destruct (IsNamed g n) eqn:Hg.
  - injection H as <-. by exists [], g, files.
  - destruct (erase_named n files) as [l|] eqn:E; [|discriminate].
    injection H as <-. destruct (IH l eq_refl) as (pre & f & post & -> & -> & Hf & Hpre).
    exists (g :: pre), f, post. repeat split; try done. by constructor.
Qed.

Lemma erase_named_none_find (n : string) (files : list NvmFile) :
  erase_named n files = None -> List.find (fun f => IsNamed f n) files = None.
Proof.
  induction files as [|f files IH]; simpl; [done|].
  destruct (IsNamed f n); [discriminate|].
  destruct (erase_named n files); [discriminate|]. intros _. by apply IH.
Qed.

Lemma posix_delete_unguarded (st : EnvState) (fpath : string) :
  posix (snd (DeleteFileUnguarded st fpath)) = posix st.
Proof.
  unfold DeleteFileUnguarded.
  destruct (fs_ st !! dpath fpath); [destruct (erase_named _ _)|]; done.
Qed.

(** The delete step of [NewWritableFile]: the directory of the path loses
    its first file of that name, if any; the rest is unchanged. *)
Lemma new_writable_delete_step (st : EnvState) (fpath : string) :
  let st1 := match FindFileUnguarded st fpath with
             | Some _ => snd (DeleteFileUnguarded st fpath)
             | None => st
             end in
  posix st1 = posix st /\
  fs_ st1 !! dpath fpath =
    (fun l => match erase_named (fname fpath) l with Some l' => l' | None => l end)
      <$> fs_ st !! dpath fpath /\
  (forall d, d <> dpath fpath -> fs_ st1 !! d = fs_ st !! d).
Proof.
  intros st1. unfold st1.
  destruct (FindFileUnguarded st fpath) eqn:Hf.
  - rewrite posix_delete_unguarded. split; [done|].
    unfold DeleteFileUnguarded.
    destruct (fs_ st !! dpath fpath) as [l|] eqn:Hd; simpl; [|by rewrite Hd].
    destruct (erase_named (fname fpath) l) as [l'|] eqn:He; simpl.
    + split; [by rewrite lookup_insert_eq|].
      intros d Hne. by rewrite lookup_insert_ne by congruence.
    + by rewrite Hd.
  - split; [done|]. split; [|done].
    destruct (fs_ st !! dpath fpath) as [l|] eqn:Hd; simpl; [|done].
    unfold FindFileUnguarded in Hf. rewrite Hd in Hf.
    destruct (List.find _ l) eqn:Hfind; [discriminate|].
    by rewrite find_none_erase_named.
Qed.

(** For an NVM-managed path whose file cannot be found: [FileExists],
    [NewSequentialFile], [NewRandomAccessFile] and [DeleteFile] report
    [NotFound], [GetFileSize] reports an IO error instead, and a rename
    within the directory reports [NotFound]; none of them changes the
    state. *)
Theorem nvm_missing_file_errors (st : EnvState) (fpath fpath_tgt : string) :
  nvm_managed fpath = true ->
  FindFileUnguarded st fpath = None ->
  FileExists st fpath = NotFound /\
  NewSequentialFile st fpath = (NotFound, None) /\
  NewRandomAccessFile st fpath = (NotFound, None) /\
  DeleteFile st fpath = (NotFound, st) /\
  GetFileSize st fpath = (IOError "File not not found", None) /\
  (dpath fpath_tgt = dpath fpath -> RenameFile st fpath fpath_tgt = (NotFound, st)).
Proof.
  intros Hm Hf.
  unfold FileExists, NewSequentialFile, NewRandomAccessFile, DeleteFile,
    GetFileSize.
  rewrite Hm, Hf. simpl.
  split; [done|]. split; [done|]. split; [done|]. split; [|split; [done|]].
  - unfold DeleteFileUnguarded.
    destruct (fs_ st !! dpath fpath) as [l|] eqn:Hd; [|done].
    unfold FindFileUnguarded in Hf. rewrite Hd in Hf.
    destruct (List.find _ l) eqn:Hfind; [discriminate|].
    by rewrite find_none_erase_named.
  - intros Hd. unfold RenameFile. rewrite Hm. simpl.
    rewrite Hd, String.eqb_refl. simpl. by rewrite Hf.
Qed.

(** [GetChildren] always returns [OK], the posix listing (whatever the
    posix status) followed by the names in the NVM table's entry for the
    directory, and leaves the posix file system and the other directories
    alone. It also enters the directory in the table, which changes later
    lookups: for an NVM-managed path of a directory the table did not
    know, [FileExists] is [NotFound] whatever the posix file system holds,
    and after [GetChildren] it is [OK] exactly when the posix listing
    succeeds and the meta-file scan returns a file: the scan takes the
    first listed entry that ends in [meta] and starts with the file's
    name, and fails if the [NvmFile] constructor throws on it. *)
Theorem get_children_registers_directory (st : EnvState) (d : string) :
  let '(s, result, st') := GetChildren st d in
  s = OK /\
  result = snd (posix_GetChildren (posix st) d) ++
           map nf_fname (match fs_ st !! d with Some l => l | None => [] end) /\
  posix st' = posix st /\
  (forall d', d' <> d -> fs_ st' !! d' = fs_ st !! d') /\
  (forall fpath, nvm_managed fpath = true -> dpath fpath = d -> fs_ st !! d = None ->
     FileExists st fpath = NotFound /\
     FileExists st' fpath =
       match posix_GetChildren (posix st) d with
       | (OK, listing) =>
           match find_meta (posix st) fpath listing with
           | Some _ => OK
           | None => NotFound
           end
       | _ => NotFound
       end).
Proof.
  unfold GetChildren. simpl.
  split; [done|]. split; [done|]. split; [done|]. split.
  - intros d' Hne. by rewrite lookup_insert_ne by congruence.
  - intros fpath Hm Hd Hnone. unfold FileExists, FindFileUnguarded. rewrite Hm. simpl.
    rewrite Hd, Hnone. split; [done|].
    rewrite lookup_insert_eq. simpl.
    destruct (posix_GetChildren (posix st) d) as [[] listing];
      try destruct (find_meta (posix st) fpath listing); done.
Qed.

(** [DeleteFile] on an NVM-managed path looks only at the NVM table:
    when the directory's list has a file of that name, the first one is
    removed and the result is [OK]; when it has none (or the directory is
    unknown), the result is [NotFound] and nothing changes, even if the
    file can be found through its meta file. (What [Unref()] does to the
    erased file is not part of the embedded code; only the table is
    stated.) *)
Theorem delete_file_nvm_table_only (st : EnvState) (fpath : string) :
  nvm_managed fpath = true ->
  (forall pre f post,
     fs_ st !! dpath fpath = Some (pre ++ f :: post) ->
     IsNamed f (fname fpath) = true ->
     Forall (fun g => IsNamed g (fname fpath) = false) pre ->
     fst (DeleteFile st fpath) = OK /\
     fs_ (snd (DeleteFile st fpath)) = <[dpath fpath := pre ++ post]> (fs_ st)) /\
  ((forall files, fs_ st !! dpath fpath = Some files ->
      Forall (fun g => IsNamed g (fname fpath) = false) files) ->
   DeleteFile st fpath = (NotFound, st)).
Proof.
  intros Hm. unfold DeleteFile, DeleteFileUnguarded. rewrite Hm. simpl. split.
  - intros pre f post Hd Hf Hpre. rewrite Hd. by rewrite erase_named_split.
  - intros Hall. destruct (fs_ st !! dpath fpath) as [files|] eqn:Hd; [|done].
    by rewrite erase_named_none by (by apply Hall).
Qed.

(** [NewWritableFile] on an NVM-managed path, when the [NvmFile]
    constructor succeeds with [f]: the result is [OK] with a handle on
    [f]; the directory's list loses its first file of that name, if any,
    and gets [f] at its end (the directory is created if unknown); the
    other directories are unchanged. When [f] carries the path's name,
    [FileExists] then reports [OK]. *)
Theorem new_writable_file_creates (st : EnvState) (fpath : string) (f : NvmFile)
    (p' : PosixFS) :
  nvm_managed fpath = true ->
  nvm_file_new (posix st) fpath = (Some f, p') ->
  let '(s, st', file) := NewWritableFile st fpath in
  s = OK /\ file = Some f /\ posix st' = p' /\
  fs_ st' !! dpath fpath =
    Some (match fs_ st !! dpath fpath with
          | Some l => match erase_named (fname fpath) l with
                      | Some l' => l' | None => l end
          | None => []
          end ++ [f]) /\
  (forall d, d <> dpath fpath -> fs_ st' !! d = fs_ st !! d) /\
  (nf_fname f = fname fpath -> FileExists st' fpath = OK).
Proof.
  intros Hm Hnew. unfold NewWritableFile. rewrite Hm. simpl.
  destruct (new_writable_delete_step st fpath) as (Hp & Htab & Hoth).
  set (st1 := match FindFileUnguarded st fpath with
              | Some _ => snd (DeleteFileUnguarded st fpath)
              | None => st
              end) in *.
  rewrite Hp, Hnew. simpl.
  split; [done|]. split; [done|]. split; [done|].
  set (files := match fs_ st1 !! dpath fpath with Some l => l | None => [] end).
  assert (Hfiles : files =
            match fs_ st !! dpath fpath with
            | Some l => match erase_named (fname fpath) l with
                        | Some l' => l' | None => l end
            | None => []
            end).
  { unfold files. rewrite Htab. by destruct (fs_ st !! dpath fpath). }
  split; [by rewrite lookup_insert_eq, Hfiles|]. split.
  - intros d Hne. rewrite lookup_insert_ne by congruence. by apply Hoth.
  - intros Hname. unfold FileExists, FindFileUnguarded. rewrite Hm. simpl.
    rewrite lookup_insert_eq.
    assert (Hfn : IsNamed f (fname fpath) = true)
      by (unfold IsNamed; rewrite Hname; apply String.eqb_refl).
    destruct (List.find (fun g => IsNamed g (fname fpath)) (files ++ [f])) eqn:E;
      [done|].
    exfalso. assert (Hin : In f (files ++ [f])) by (apply in_or_app; right; by left).
    apply (List.find_none _ _ E) in Hin. congruence.
Qed.

(** [NewWritableFile] on an NVM-managed path when the [NvmFile]
    constructor throws: if no file was found, the result is an IO error
    and the table is unchanged; if a file [g] was found, [file] still
    points to it, so the call returns [OK] with a handle on [g] and puts
    [g] back at the end of the directory's list, after having removed the
    first file of that name from it ([g] itself when it came from the
    table, after [Unref()]). *)
Theorem new_writable_file_ctor_failure (st : EnvState) (fpath : string)
    (p' : PosixFS) :
  nvm_managed fpath = true ->
  nvm_file_new (posix st) fpath = (None, p') ->
  let '(s, st', file) := NewWritableFile st fpath in
  posix st' = p' /\
  match FindFileUnguarded st fpath with
  | None => s = IOError "Failed creating NvmFile" /\ file = None /\ fs_ st' = fs_ st
  | Some g =>
      s = OK /\ file = Some g /\
      fs_ st' !! dpath fpath =
        Some (match fs_ st !! dpath fpath with
              | Some l => match erase_named (fname fpath) l with
                          | Some l' => l' | None => l end
              | None => []
              end ++ [g]) /\
      (forall d, d <> dpath fpath -> fs_ st' !! d = fs_ st !! d)
  end.
Proof.
  intros Hm Hnew. unfold NewWritableFile. rewrite Hm. simpl.
  destruct (new_writable_delete_step st fpath) as (Hp & Htab & Hoth).
  destruct (FindFileUnguarded st fpath) as [g|] eqn:Hf.
  - rewrite Hp, Hnew. simpl.
    split; [done|]. split; [done|]. split; [done|]. split.
    + rewrite lookup_insert_eq, Htab. by destruct (fs_ st !! dpath fpath).
    + intros d Hne. rewrite lookup_insert_ne by congruence. by apply Hoth.
  - simpl in Hp |- *. rewrite Hnew. simpl. done.
Qed.

(** Every directory of the NVM table holding at most one file per name is
    an invariant of [DeleteFile] and of [NewWritableFile], provided the
    [NvmFile] constructors name a new file after the path it was made
    for. *)
Theorem nvm_table_names_unique (st : EnvState) (fpath : string) :
  (forall fs p m g, nvm_file_from_meta fs p m = Some g -> nf_fname g = fname p) ->
  (forall fs p g fs', nvm_file_new fs p = (Some g, fs') -> nf_fname g = fname p) ->
  (forall d files, fs_ st !! d = Some files -> NoDup (map nf_fname files)) ->
  (forall d files, fs_ (snd (DeleteFile st fpath)) !! d = Some files ->
     NoDup (map nf_fname files)) /\
  (forall d files, fs_ (snd (fst (NewWritableFile st fpath))) !! d = Some files ->
     NoDup (map nf_fname files)).
Proof.
  intros Hmeta Hctor Huniq.
  (* Removing the first file of a name from a list with unique names
     leaves a list with unique names and none of that name. *)
  assert (Herase : forall l, NoDup (map nf_fname l) ->
            let l' := match erase_named (fname fpath) l with
                      | Some l' => l' | None => l end in
            NoDup (map nf_fname l') /\ fname fpath ∉ map nf_fname l').
  { intros l Hl l'. unfold l'.
    destruct (erase_named (fname fpath) l) as [l1|] eqn:He.
    - apply erase_named_some in He as (pre & f & post & -> & -> & Hf & _).
      unfold IsNamed in Hf. apply String.eqb_eq in Hf.
      rewrite map_app in Hl |- *. simpl in Hl.
      apply NoDup_app in Hl as (Hpre & Hx & Hpost).
      apply NoDup_cons in Hpost as [Hfp Hpost].
      split.
      + apply NoDup_app. split; [done|]. split; [|done].
        intros x Hin1 Hin2. apply (Hx x Hin1). by right.
      + rewrite <- Hf. intros Hin. apply elem_of_app in Hin as [Hin|Hin].
        * apply (Hx _ Hin). by left.
        * done.
    - split; [done|]. intros Hin.
      apply list_elem_of_In, in_map_iff in Hin as (g & Hg & Hin).
      pose proof (erase_named_none_find _ _ He) as Hn.
      apply (List.find_none _ _ Hn) in Hin. unfold IsNamed in Hin.
      rewrite Hg, String.eqb_refl in Hin. discriminate. }
  split.
  - unfold DeleteFile, DeleteFileUnguarded.
    destruct (negb (nvm_managed fpath)); simpl; [exact Huniq|].
    destruct (fs_ st !! dpath fpath) as [l|] eqn:Hd; simpl; [|exact Huniq].
    destruct (erase_named (fname fpath) l) as [l'|] eqn:He; simpl; [|exact Huniq].
    intros d files. destruct (decide (d = dpath fpath)) as [->|Hne].
    + rewrite lookup_insert_eq. intros [= <-].
      destruct (Herase l (Huniq _ _ Hd)) as [H _]. by rewrite He in H.
    + rewrite lookup_insert_ne by congruence. apply Huniq.
  - unfold NewWritableFile.
    destruct (negb (nvm_managed fpath)) eqn:Hm.
    { destruct (posix_NewWritableFile (posix st) fpath). simpl. exact Huniq. }
    destruct (new_writable_delete_step st fpath) as (Hp & Htab & Hoth).
    set (st1 := match FindFileUnguarded st fpath with
                | Some _ => snd (DeleteFileUnguarded st fpath)
                | None => st
                end) in *.
    (* The file that ends up in the table carries the path's name. *)
    assert (Hname : forall created p'', nvm_file_new (posix st1) fpath = (created, p'') ->
              forall f, match created with Some f => Some f
                        | None => FindFileUnguarded st fpath end = Some f ->
              nf_fname f = fname fpath).
    { intros created p'' Hc f Hf. destruct created as [g|].
      - injection Hf as <-. by eapply Hctor.
      - unfold FindFileUnguarded in Hf.
        destruct (fs_ st !! dpath fpath) as [l|]; [|discriminate].
        destruct (List.find _ l) as [g|] eqn:E.
        + injection Hf as <-. apply List.find_some in E as [_ E].
          unfold IsNamed in E. by apply String.eqb_eq in E.
        + destruct (posix_GetChildren (posix st) (dpath fpath)) as [s listing].
          destruct s; try discriminate.
          clear -Hf Hmeta. induction listing as [|e listing IH]; simpl in Hf;
            [discriminate|].
          destruct (negb (ends_with e "meta")); [auto|].
          destruct (negb (String.eqb _ _)); [auto|]. by eapply Hmeta. }
    destruct (nvm_file_new (posix st1) fpath) as [created p''] eqn:Hc.
    specialize (Hname created p'' eq_refl).
    destruct (match created with Some f => Some f
              | None => FindFileUnguarded st fpath end) as [f|] eqn:Ef; simpl.
    + specialize (Hname f eq_refl).
      intros d files. destruct (decide (d = dpath fpath)) as [->|Hne].
      * rewrite lookup_insert_eq. intros [= <-]. rewrite Htab.
        destruct (fs_ st !! dpath fpath) as [l|] eqn:Hd; simpl.
        -- destruct (Herase l (Huniq _ _ Hd)) as [Hl Hn].
           rewrite map_app. simpl. apply NoDup_app. split; [done|].
           split; [|apply NoDup_singleton].
           intros x Hx Hx'. apply list_elem_of_singleton in Hx'. subst x.
           rewrite Hname in Hx. done.
        -- apply NoDup_singleton.
      * rewrite lookup_insert_ne by congruence. rewrite Hoth by done. apply Huniq.
    + intros d files. destruct (decide (d = dpath fpath)) as [->|Hne].
      * rewrite Htab. destruct (fs_ st !! dpath fpath) as [l|] eqn:Hd; simpl;
          [|discriminate].
        intros [= <-]. exact (proj1 (Herase l (Huniq _ _ Hd))).
      * rewrite Hoth by done. apply Huniq.
Qed.

(** Renaming an NVM file onto its own path, when it is in the table,
    returns [OK] but removes it from its directory's list: the lookup of
    the target finds the source itself, and [DeleteFileUnguarded] erases
    it before [Rename] is called on it. (What [Unref()] and [Rename] do
    to the object beyond its name is not part of the embedded code; only
    the status and the table are stated.) *)
Theorem rename_file_onto_itself (st : EnvState) (fpath : string)
    (pre post : list NvmFile) (f : NvmFile) :
  nvm_managed fpath = true ->
  fs_ st !! dpath fpath = Some (pre ++ f :: post) ->
  IsNamed f (fname fpath) = true ->
  Forall (fun g => IsNamed g (fname fpath) = false) pre ->
  Forall (fun g => nf_id g <> nf_id f) (pre ++ post) ->
  let '(s, st') := RenameFile st fpath fpath in
  s = OK /\ fs_ st' !! dpath fpath = Some (pre ++ post).
Proof.
  intros Hm Hd Hf Hpre Hids.
  assert (Hfind : FindFileUnguarded st fpath = Some f).
  { unfold FindFileUnguarded. rewrite Hd. by rewrite find_named_split. }
  assert (Hren : rename_obj f (fname fpath) (pre ++ post) = pre ++ post).
  { unfold rename_obj. induction Hids as [|g l Hg _ IH]; simpl; [done|].
    rewrite IH. apply Nat.eqb_neq in Hg. by rewrite Hg. }
  unfold RenameFile. rewrite Hm. simpl. rewrite String.eqb_refl. simpl.
  rewrite Hfind. unfold DeleteFileUnguarded. rewrite Hd, erase_named_split by done.
  simpl. split; [done|].
  rewrite lookup_fmap, lookup_insert_eq. exact (f_equal Some Hren).
Qed.

End Props2.

Lemma nvm_missing_file_errors_witness :
  @nvm_managed sample_fpath "b.sst" = true /\
  @FindFileUnguarded sample_posix sample_fpath sample_meta sample_env "b.sst" = None /\
  let st := sample_env in
  @FileExists sample_posix sample_fpath sample_meta st "b.sst" = NotFound /\
  @NewSequentialFile sample_posix sample_fpath sample_meta sample_more st "b.sst"
    = (NotFound, None) /\
  @NewRandomAccessFile sample_posix sample_fpath sample_meta sample_more st "b.sst"
    = (NotFound, None) /\
  @DeleteFile sample_posix sample_fpath st "b.sst" = (NotFound, st) /\
  @GetFileSize sample_posix sample_fpath sample_meta sample_more sample_ops st "b.sst"
    = (IOError "File not not found", None) /\
  (@dpath sample_fpath "d.sst" = @dpath sample_fpath "b.sst" ->
   @RenameFile sample_posix sample_fpath sample_meta st "b.sst" "d.sst" = (NotFound, st)).
Proof.
  assert (Hm : @nvm_managed sample_fpath "b.sst" = true) by reflexivity.
  assert (Hf : @FindFileUnguarded sample_posix sample_fpath sample_meta sample_env
                 "b.sst" = None) by (vm_compute; reflexivity).
  split; [exact Hm|]. split; [exact Hf|].
  exact (nvm_missing_file_errors (PE:=sample_posix) (FP:=sample_fpath)
           (NM:=sample_meta) (PM:=sample_more) (NO:=sample_ops)
           sample_env "b.sst" "d.sst" Hm Hf).
Defined.

Lemma get_children_registers_directory_witness :
  @FileExists sample_posix sample_fpath sample_meta_found sample_env0 "a.sst" = NotFound /\
  @FileExists sample_posix sample_fpath sample_meta_found
    (snd (@GetChildren sample_posix sample_env0 "db")) "a.sst" = OK.
Proof.
  pose proof (get_children_registers_directory (PE:=sample_posix) (FP:=sample_fpath)
                (NM:=sample_meta_found) sample_env0 "db") as H.
  destruct (@GetChildren sample_posix sample_env0 "db")
    as [[s result] st'] eqn:E.
  destruct H as (_ & _ & _ & _ & H).
  destruct (H "a.sst" eq_refl eq_refl eq_refl) as [H1 H2].
  split; [exact H1|]. exact (eq_trans H2 eq_refl).
Defined.

Lemma delete_file_nvm_table_only_witness :
  @nvm_managed sample_fpath "a.sst" = true /\
  (fst (sample_DeleteFile sample_env "a.sst") = OK /\
   fs_ (snd (sample_DeleteFile sample_env "a.sst")) =
     <["db" := [mkNvmFile 2 "c.sst"]]> (fs_ sample_env)) /\
  sample_DeleteFile (@mkEnvState sample_posix ["a.sst.meta"] {[ "db" := [] ]}) "a.sst" =
    (NotFound, @mkEnvState sample_posix ["a.sst.meta"] {[ "db" := [] ]}).
Proof.
  assert (Hm : @nvm_managed sample_fpath "a.sst" = true) by reflexivity.
  split; [exact Hm|]. split.
  - apply (proj1 (delete_file_nvm_table_only (PE:=sample_posix) (FP:=sample_fpath)
                    sample_env "a.sst" Hm) [] (mkNvmFile 1 "a.sst") [mkNvmFile 2 "c.sst"]);
      [vm_compute; reflexivity | reflexivity | constructor].
  - apply (proj2 (delete_file_nvm_table_only (PE:=sample_posix) (FP:=sample_fpath)
                    (@mkEnvState sample_posix ["a.sst.meta"] {[ "db" := [] ]}) "a.sst" Hm)).
    intros files H. simpl in H. rewrite lookup_singleton_eq in H.
    injection H as <-. constructor.
Defined.

Lemma new_writable_file_creates_witness :
  @nvm_managed sample_fpath "a.sst" = true /\
  @nvm_file_new sample_posix sample_ops (posix sample_env) "a.sst"
    = (Some (mkNvmFile 7 "a.sst"), ["x.log"]) /\
  let '(s, st', file) :=
    @NewWritableFile sample_posix sample_fpath sample_meta sample_more sample_ops sample_env "a.sst" in
  s = OK /\ file = Some (mkNvmFile 7 "a.sst") /\
  fs_ st' !! "db" = Some [mkNvmFile 2 "c.sst"; mkNvmFile 7 "a.sst"] /\
  @FileExists sample_posix sample_fpath sample_meta st' "a.sst" = OK.
Proof.
  assert (Hm : @nvm_managed sample_fpath "a.sst" = true) by reflexivity.
  assert (Hn : @nvm_file_new sample_posix sample_ops (posix sample_env) "a.sst"
                 = (Some (mkNvmFile 7 "a.sst"), ["x.log"])) by reflexivity.
  split; [exact Hm|]. split; [exact Hn|].
  pose proof (new_writable_file_creates (PE:=sample_posix) (FP:=sample_fpath)
                (NM:=sample_meta) (PM:=sample_more) (NO:=sample_ops) sample_env "a.sst" _ _ Hm Hn) as H.
  destruct (@NewWritableFile sample_posix sample_fpath sample_meta sample_more sample_ops
              sample_env "a.sst") as [[s st'] file].
  destruct H as (Hs & Hfile & _ & Htab & _ & Hex).
  split; [exact Hs|]. split; [exact Hfile|]. split.
  - refine (eq_trans Htab _). vm_compute. reflexivity.
  - apply Hex. reflexivity.
Defined.

Lemma new_writable_file_ctor_failure_witness :
  @nvm_managed sample_fpath "a.sst" = true /\
  @nvm_file_new sample_posix sample_ops_fail (posix sample_env) "a.sst"
    = (None, ["x.log"]) /\
  let '(s, st', file) :=
    @NewWritableFile sample_posix sample_fpath sample_meta sample_more sample_ops_fail
      sample_env "a.sst" in
  s = OK /\ file = Some (mkNvmFile 1 "a.sst") /\
  fs_ st' !! "db" = Some [mkNvmFile 2 "c.sst"; mkNvmFile 1 "a.sst"].
Proof.
  assert (Hm : @nvm_managed sample_fpath "a.sst" = true) by reflexivity.
  assert (Hn : @nvm_file_new sample_posix sample_ops_fail (posix sample_env) "a.sst"
                 = (None, ["x.log"])) by reflexivity.
  split; [exact Hm|]. split; [exact Hn|].
  pose proof (new_writable_file_ctor_failure (PE:=sample_posix) (FP:=sample_fpath)
                (NM:=sample_meta) (PM:=sample_more) (NO:=sample_ops_fail) sample_env "a.sst" _ Hm Hn) as H.
  destruct (@NewWritableFile sample_posix sample_fpath sample_meta sample_more sample_ops_fail
              sample_env "a.sst") as [[s st'] file].
  destruct H as [_ H].
  assert (Hf : @FindFileUnguarded sample_posix sample_fpath sample_meta sample_env "a.sst"
                 = Some (mkNvmFile 1 "a.sst")) by (vm_compute; reflexivity).
  rewrite Hf in H. destruct H as (Hs & Hfile & Htab & _).
  split; [exact Hs|]. split; [exact Hfile|].
  refine (eq_trans Htab _). vm_compute. reflexivity.
Defined.

Lemma nvm_table_names_unique_witness :
  (forall d files, fs_ (snd (sample_DeleteFile sample_env "a.sst")) !! d = Some files ->
     NoDup (map nf_fname files)) /\
  (forall d files,
     fs_ (snd (fst (@NewWritableFile sample_posix sample_fpath sample_meta_found
                      sample_more sample_ops sample_env "a.sst"))) !! d = Some files ->
     NoDup (map nf_fname files)).
Proof.
  apply (nvm_table_names_unique (PE:=sample_posix) (FP:=sample_fpath)
           (NM:=sample_meta_found) (PM:=sample_more) (NO:=sample_ops) sample_env "a.sst").
  - intros fs p m g H. injection H as <-. reflexivity.
  - intros fs p g fs' H. injection H as <- _. reflexivity.
  - intros d files H. simpl in H.
    destruct (decide (d = "db")) as [->|Hne].
    + rewrite lookup_singleton_eq in H. injection H as <-.
      apply NoDup_cons. split; [|apply NoDup_singleton].
      intros Hin. apply list_elem_of_singleton in Hin. discriminate.
    + rewrite lookup_singleton_ne in H by congruence. discriminate.
Defined.

Lemma rename_file_onto_itself_witness :
  @nvm_managed sample_fpath "a.sst" = true /\
  fs_ sample_env !! @dpath sample_fpath "a.sst"
    = Some ([] ++ mkNvmFile 1 "a.sst" :: [mkNvmFile 2 "c.sst"]) /\
  let '(s, st') := sample_RenameFile sample_env "a.sst" "a.sst" in
  s = OK /\ fs_ st' !! "db" = Some [mkNvmFile 2 "c.sst"].
Proof.
  assert (Hm : @nvm_managed sample_fpath "a.sst" = true) by reflexivity.
  assert (Hd : fs_ sample_env !! @dpath sample_fpath "a.sst"
                 = Some ([] ++ mkNvmFile 1 "a.sst" :: [mkNvmFile 2 "c.sst"]))
    by (vm_compute; reflexivity).
  split; [exact Hm|]. split; [exact Hd|].
  assert (Hids : Forall (fun g => nf_id g <> nf_id (mkNvmFile 1 "a.sst"))
                   ([] ++ [mkNvmFile 2 "c.sst"]))
    by (repeat constructor; simpl; lia).
  exact (rename_file_onto_itself (PE:=sample_posix) (FP:=sample_fpath)
           (NM:=sample_meta) sample_env "a.sst" [] [mkNvmFile 2 "c.sst"]
           (mkNvmFile 1 "a.sst") Hm Hd eq_refl (List.Forall_nil _) Hids).
Defined.

End EnvNVMSpec.
